(** * Ule Msee backend: the completion client and the history log

    A shallow embedding of [backend/main.py]:
    - [GroqClient.__init__] and [GroqClient.generate_response], the retry
      loop around the outbound call to the chat-completion endpoint;
    - the in-memory history log ([history_items], [MAX_HISTORY_ITEMS]) with
      the handlers [ask_question], [get_history], [delete_history_item],
      [clear_history].

    Python values keep their shape: an [int] is a [Z], a [float] a [Q], a
    [str] a [string], a decoded JSON document a [JSON] tree, a raised
    exception a value of [Exn].  The outside world (the upstream endpoint,
    the clocks, the uuid generator) is an [Env] of oracles; what the program
    did to it is recorded in the [World]. *)

From Stdlib Require Import List String Ascii ZArith QArith Bool Lia Arith.
From Stdlib Require Import DecimalString Sorted Permutation.
Import ListNotations.

Set Warnings "-register-all".

Local Open Scope string_scope.
Local Open Scope Z_scope.

(** ** Python values *)

(** A decoded JSON document, as [response.json()] returns it.  A [dict] is
    an association list read with first-match lookup. *)
Inductive JSON : Type :=
| JNull
| JBool (b : bool)
| JNum (x : Q)
| JStr (s : string)
| JArr (items : list JSON)
| JObj (fields : list (string * JSON)).

(** Exceptions the modelled code raises or meets. *)
Inductive Exn : Type :=
| HTTPException (status_code : Z) (detail : string)
| TimeoutException                 (* httpx.TimeoutException *)
| RequestError                     (* any other httpx.RequestError *)
| ValueError (msg : string)
| JSONDecodeError                  (* response.json() on a body that is not JSON *)
| AttributeError
| KeyError
| IndexError
| TypeError
| ValidationError.                 (* pydantic *)

(** [isinstance(e, httpx.RequestError)]: timeouts are transport errors too. *)
Definition is_RequestError (e : Exn) : bool :=
  match e with
  | TimeoutException | RequestError => true
  | _ => false
  end.

Definition is_TimeoutException (e : Exn) : bool :=
  match e with
  | TimeoutException => true
  | _ => false
  end.

Definition is_HTTPException (e : Exn) : bool :=
  match e with
  | HTTPException _ _ => true
  | _ => false
  end.

(** Results of code that may raise. *)
Definition Res (A : Type) : Type := (Exn + A)%type.

(** [d.get(key)] / [d[key]] on the association list of a dict. *)
Fixpoint assoc (key : string) (fields : list (string * JSON)) : option JSON :=
  match fields with
  | [] => None
  | (k, v) :: rest => if String.eqb k key then Some v else assoc key rest
  end.

(** Python truthiness, [bool(v)]. *)
Definition truthy (v : JSON) : bool :=
  match v with
  | JNull => false
  | JBool b => b
  | JNum x => negb (Qeq_bool x 0)
  | JStr s => negb (String.eqb s EmptyString)
  | JArr items => match items with [] => false | _ => true end
  | JObj fields => match fields with [] => false | _ => true end
  end.

(** [v.get(key)]: only a dict has the method; a missing key gives [None]. *)
Definition py_get (v : JSON) (key : string) : Res JSON :=
  match v with
  | JObj fields => inr (match assoc key fields with Some x => x | None => JNull end)
  | _ => inl AttributeError
  end.

(** [v.get(key, default)]. *)
Definition py_get_default (v : JSON) (key : string) (default : JSON) : Res JSON :=
  match v with
  | JObj fields => inr (match assoc key fields with Some x => x | None => default end)
  | _ => inl AttributeError
  end.

(** [v[key]] with a string key. *)
Definition py_getitem (v : JSON) (key : string) : Res JSON :=
  match v with
  | JObj fields => match assoc key fields with Some x => inr x | None => inl KeyError end
  | _ => inl TypeError
  end.

(** [v[0]]. *)
Definition py_getitem0 (v : JSON) : Res JSON :=
  match v with
  | JArr items => match items with x :: _ => inr x | [] => inl IndexError end
  | JStr s => match s with
              | String a _ => inr (JStr (String a EmptyString))
              | EmptyString => inl IndexError
              end
  | JObj _ => inl KeyError          (* JSON keys are strings, never the int 0 *)
  | _ => inl TypeError
  end.

(** [len(v)]. *)
Definition py_len (v : JSON) : Res Z :=
  match v with
  | JStr s => inr (Z.of_nat (String.length s))
  | JArr items => inr (Z.of_nat (List.length items))
  | JObj fields => inr (Z.of_nat (List.length fields))
  | _ => inl TypeError
  end.

(** [f"{n}"] for an [int]. *)
Definition str_of_int (n : Z) : string := NilZero.string_of_int (Z.to_int n).

(** ** The data model *)

(** What the modelled code reads of an [httpx.Response]: [status_code],
    [text], and the decoded body, [None] when the body is not JSON. *)
Record Response : Type := mkResponse {
  status_code : Z;
  text : string;
  decoded : option JSON
}.

(** [response.json()].  A body that does not decode raises here, whatever
    the reason (not JSON, or bytes that are not text): one constructor
    stands for all such errors, none of which the loop catches. *)
Definition json (resp : Response) : Res JSON :=
  match decoded resp with
  | Some data => inr data
  | None => inl JSONDecodeError
  end.

(** How one [client.post] ends, as far as the loop tells outcomes apart: a
    response, or one of the two httpx exceptions it catches. *)
Inductive Outcome : Type :=
| Responded (r : Response)
| TimedOut                         (* raises httpx.TimeoutException *)
| RequestFailed.                   (* raises another httpx.RequestError *)

Record Message : Type := mkMessage {
  role : string;
  content : string
}.

(** The [payload] dict of [generate_response]. *)
Record Payload : Type := mkPayload {
  payload_model : string;
  messages : list Message;
  temperature : Q;
  max_tokens : Z;
  top_p : Q;
  stream : bool
}.

(** One outbound call: [client.post(url, headers=..., json=payload)] made by
    an [httpx.AsyncClient(timeout=...)]. *)
Record Request : Type := mkRequest {
  url : string;
  headers : list (string * string);
  body : Payload;
  request_timeout : Q
}.

(** The attributes [GroqClient.__init__] sets. *)
Record GroqClient : Type := mkGroqClient {
  api_key : string;
  base_url : string;
  model : string;
  fallback_model : string;
  timeout : Q;
  max_retries : Z
}.

(** A [history_item] dict of [ask_question].  [response] is whatever
    [generate_response] extracted from the upstream body. *)
Record HistoryItem : Type := mkHistoryItem {
  id : string;
  question : string;
  response : JSON;
  timestamp : string;
  model_used : string
}.

(** The triple [generate_response] returns. *)
Definition Answer : Type := (JSON * string * Q)%type.

(** ** The world *)

(** What the process did to its surroundings, in the order it did it. *)
Inductive Event : Type :=
| EvPost (r : Request)             (* await client.post(...) *)
| EvSleep (seconds : Z)            (* await asyncio.sleep(seconds) *)
| EvTime                           (* time.time() *)
| EvNow                            (* datetime.now() *)
| EvUuid.                          (* uuid.uuid4() *)

Record World : Type := mkWorld {
  history_items : list HistoryItem;    (* the module-level list *)
  events : list Event                  (* oldest first *)
}.

(** The surroundings: what the [n]-th call of each kind meets, and the two
    library functions whose result depends on the installed versions. *)
Record Env : Type := mkEnv {
  upstream : nat -> Outcome;           (* the n-th outbound call *)
  time_time : nat -> Q;                (* the n-th reading of time.time() *)
  now_isoformat : nat -> string;       (* the n-th datetime.now().isoformat() *)
  uuid4 : nat -> string;               (* the n-th str(uuid.uuid4()) *)
  py_str : JSON -> string;             (* str(v) of a decoded value that is not a str *)
  str_field : JSON -> Res string       (* pydantic validating a [str] field *)
}.

Definition is_post (e : Event) : bool :=
  match e with EvPost _ => true | _ => false end.
Definition is_sleep (e : Event) : bool :=
  match e with EvSleep _ => true | _ => false end.
Definition is_time (e : Event) : bool :=
  match e with EvTime => true | _ => false end.
Definition is_now (e : Event) : bool :=
  match e with EvNow => true | _ => false end.
Definition is_uuid (e : Event) : bool :=
  match e with EvUuid => true | _ => false end.

Definition count (p : Event -> bool) (w : World) : nat :=
  List.length (filter p (events w)).

(** The outbound calls made so far, oldest first. *)
Definition posts (w : World) : list Request :=
  flat_map (fun e => match e with EvPost r => [r] | _ => [] end) (events w).

(** The arguments of the [asyncio.sleep] calls so far, oldest first. *)
Definition sleeps (w : World) : list Z :=
  flat_map (fun e => match e with EvSleep s => [s] | _ => [] end) (events w).

Definition record (e : Event) (w : World) : World :=
  mkWorld (history_items w) (events w ++ [e]).

(** ** A state-and-exception monad for the handlers *)

Definition M (A : Type) : Type := World -> Res A * World.

Definition ret {A : Type} (a : A) : M A := fun w => (inr a, w).
Definition raise {A : Type} (e : Exn) : M A := fun w => (inl e, w).
Definition lift {A : Type} (r : Res A) : M A := fun w => (r, w).

Definition bind {A B : Type} (m : M A) (k : A -> M B) : M B :=
  fun w =>
    match m w with
    | (inl e, w') => (inl e, w')
    | (inr a, w') => k a w'
    end.

(** [try: m  except ...: handler]: [handler e] is [None] when no [except]
    clause matches [e]. *)
Definition try_except {A : Type} (m : M A) (handler : Exn -> option (M A)) : M A :=
  fun w =>
    match m w with
    | (inl e, w') =>
        match handler e with
        | Some h => h w'
        | None => (inl e, w')
        end
    | (inr a, w') => (inr a, w')
    end.

Definition rbind {A B : Type} (r : Res A) (k : A -> Res B) : Res B :=
  match r with
  | inl e => inl e
  | inr a => k a
  end.

Declare Scope monad_scope.
Delimit Scope monad_scope with monad.
Notation "x <- m ;; k" := (bind m (fun x => k))
  (at level 61, m at next level, right associativity) : monad_scope.
Notation "m ;;; k" := (bind m (fun _ => k))
  (at level 61, right associativity) : monad_scope.
Notation "x <~ r ;; k" := (rbind r (fun x => k))
  (at level 61, r at next level, right associativity) : monad_scope.
Local Open Scope monad_scope.

(** ** Primitive effects *)

Section Program.

Variable env : Env.

(** [await client.post(...)]: the call is recorded, then the upstream's
    outcome for it is met. *)
Definition post (r : Request) : M Response :=
  fun w =>
    let w' := record (EvPost r) w in
    match upstream env (count is_post w) with
    | Responded resp => (inr resp, w')
    | TimedOut => (inl TimeoutException, w')
    | RequestFailed => (inl RequestError, w')
    end.

(** [await asyncio.sleep(seconds)]. *)
Definition sleep (seconds : Z) : M unit :=
  fun w => (inr tt, record (EvSleep seconds) w).

(** [time.time()]. *)
Definition time : M Q :=
  fun w => (inr (time_time env (count is_time w)), record EvTime w).

(** [datetime.now().isoformat()]. *)
Definition now : M string :=
  fun w => (inr (now_isoformat env (count is_now w)), record EvNow w).

(** [str(uuid.uuid4())]. *)
Definition new_uuid : M string :=
  fun w => (inr (uuid4 env (count is_uuid w)), record EvUuid w).

(** [f"{v}"] for a decoded JSON value: a [str] is spliced in as it is. *)
Definition fmt (v : JSON) : string :=
  match v with
  | JStr s => s
  | _ => py_str env v
  end.

(** ** GroqClient *)

(** [GroqClient.__init__], given [os.getenv("GROQ_API_KEY")]. *)
Definition GroqClient_init (getenv : option string) : Res GroqClient :=
  match getenv with
  | None =>
      inl (ValueError "GROQ_API_KEY environment variable is not set or is using placeholder value")
  | Some key =>
      if String.eqb key EmptyString || String.eqb key "your_groq_api_key_here" then
        inl (ValueError "GROQ_API_KEY environment variable is not set or is using placeholder value")
      else if negb (String.prefix "gsk_" key) then
        inl (ValueError "Invalid GROQ_API_KEY format (should start with 'gsk_')")
      else
        inr {| api_key := key;
               base_url := "https://api.groq.com/openai/v1";
               model := "llama3-70b-8192";
               fallback_model := "llama3-8b-8192";
               timeout := 30;
               max_retries := 3 |}
  end.

Definition nl : string := String (ascii_of_nat 10) EmptyString.
Definition indent32 : string := "                                ".

(** The system message, a triple-quoted literal that keeps its line breaks
    and indentation. *)
Definition SYSTEM_CONTENT : string :=
  "You are Ule Msee, an AI assistant whose name means 'wisdom' in Swahili. " ++ nl ++
  indent32 ++ "You provide accurate, thoughtful, and well-researched answers. Format your responses " ++ nl ++
  indent32 ++ "using markdown when appropriate for better readability. Be concise but comprehensive, " ++ nl ++
  indent32 ++ "and always strive to be helpful and informative.".

(** [self.model if attempt < 2 else self.fallback_model]. *)
Definition model_to_use (c : GroqClient) (attempt : Z) : string :=
  if attempt <? 2 then model c else fallback_model c.

Definition make_payload (model_name : string) (q : string) : Payload :=
  {| payload_model := model_name;
     messages := [ {| role := "system"; content := SYSTEM_CONTENT |};
                   {| role := "user"; content := q |} ];
     temperature := 7 # 10;
     max_tokens := 1500;
     top_p := 9 # 10;
     stream := false |}.

Definition make_request (c : GroqClient) (model_name : string) (q : string) : Request :=
  {| url := base_url c ++ "/chat/completions";
     headers := [ ("Authorization", "Bearer " ++ api_key c);
                  ("Content-Type", "application/json") ];
     body := make_payload model_name q;
     request_timeout := timeout c |}.

(** [not data.get("choices") or len(data["choices"]) == 0]. *)
Definition no_choices (data : JSON) : Res bool :=
  choices <~ py_get data "choices" ;;
  if negb (truthy choices) then inr true
  else
    again <~ py_getitem data "choices" ;;
    n <~ py_len again ;;
    inr (n =? 0).

(** [data["choices"][0]["message"]["content"]]. *)
Definition first_content (data : JSON) : Res JSON :=
  choices <~ py_getitem data "choices" ;;
  choice <~ py_getitem0 choices ;;
  message <~ py_getitem choice "message" ;;
  py_getitem message "content".

(** The detail of the [else] branch: the status code, then the upstream's
    [error.message], or the raw body when anything in the [try] raises. *)
Definition error_detail (resp : Response) : string :=
  let base := "Groq API error: " ++ str_of_int (status_code resp) in
  let tried :=
    error_data <~ json resp ;;
    err <~ py_get_default error_data "error" (JObj []) ;;
    message <~ py_get_default err "message" (JStr "Unknown error") ;;
    inr (base ++ " - " ++ fmt message) in
  match tried with
  | inr s => s
  | inl _ => base ++ " - " ++ text resp
  end.

(** How one pass through the body of the [for] loop ends without raising. *)
Inductive Flow : Type :=
| Continue                         (* a [continue] statement *)
| FallThrough                      (* the end of the body *)
| Return (a : Answer).             (* a [return] statement *)

(** The body of the [for attempt in range(self.max_retries)] loop. *)
Definition attempt_body (c : GroqClient) (q : string) (start_time : Q)
    (attempt : Z) : M Flow :=
  try_except
    (let model_name := model_to_use c attempt in
     resp <- post (make_request c model_name q) ;;
     if status_code resp =? 200 then
       data <- lift (json resp) ;;
       empty <- lift (no_choices data) ;;
       if (empty : bool) then
         raise (HTTPException 500 "Ule Msee couldn't generate a response")
       else
         ai_response <- lift (first_content data) ;;
         t <- time ;;
         let response_time := (t - start_time)%Q in
         ret (Return (ai_response, model_name, response_time))
     else if status_code resp =? 429 then
       if attempt <? max_retries c - 1 then
         sleep (2 ^ attempt) ;;; ret Continue
       else
         ret FallThrough
     else
       let detail := error_detail resp in
       if attempt <? max_retries c - 1 then
         sleep (2 ^ attempt) ;;; ret Continue
       else
         raise (HTTPException (status_code resp) detail))
    (fun e =>
       if is_TimeoutException e then
         Some (if attempt <? max_retries c - 1 then ret Continue
               else raise (HTTPException 504
                      "Ule Msee is taking too long to respond. Please try again."))
       else if is_RequestError e then
         Some (if attempt <? max_retries c - 1 then
                 sleep (2 ^ attempt) ;;; ret Continue
               else raise (HTTPException 503
                      "Unable to connect to Ule Msee's AI service"))
       else None).

(** [range(n)]. *)
Definition py_range (n : Z) : list Z := map Z.of_nat (seq 0 (Z.to_nat n)).

(** The [for] loop: [None] when the range is exhausted and control reaches
    the statement after the loop. *)
Fixpoint for_attempts (body : Z -> M Flow) (attempts : list Z) : M (option Answer) :=
  match attempts with
  | [] => ret None
  | attempt :: rest =>
      flow <- body attempt ;;
      match flow with
      | Return a => ret (Some a)
      | Continue | FallThrough => for_attempts body rest
      end
  end.

Definition UNAVAILABLE : Exn :=
  HTTPException 500 "Ule Msee is temporarily unavailable after multiple attempts".

(** [GroqClient.generate_response]. *)
Definition generate_response (c : GroqClient) (q : string) : M Answer :=
  start_time <- time ;;
  done <- for_attempts (attempt_body c q start_time) (py_range (max_retries c)) ;;
  match done with
  | Some a => ret a
  | None => raise UNAVAILABLE
  end.

(** ** The history log and its handlers *)

Definition MAX_HISTORY_ITEMS : Z := 1000.

(** [history_items.append(history_item)] followed by the trim
    [if len(history_items) > MAX_HISTORY_ITEMS: history_items.pop(0)]. *)
Definition append_history (item : HistoryItem) (items : list HistoryItem)
    : list HistoryItem :=
  let items := (items ++ [item])%list in
  if Z.of_nat (List.length items) >? MAX_HISTORY_ITEMS then tl items else items.

Definition save_to_history (item : HistoryItem) : M unit :=
  fun w => (inr tt, mkWorld (append_history item (history_items w)) (events w)).

Record QuestionResponse : Type := mkQuestionResponse {
  qr_response : string;
  qr_model_used : string;
  qr_response_time : Q
}.

(** [ask_question], called with the validated question and the client. *)
Definition ask_question (c : GroqClient) (q : string) : M QuestionResponse :=
  try_except
    (answer <- generate_response c q ;;
     let '(response_text, model_name, response_time) := answer in
     uid <- new_uuid ;;
     stamp <- now ;;
     let history_item :=
       {| id := uid;
          question := q;
          response := response_text;
          timestamp := stamp;
          model_used := model_name |} in
     save_to_history history_item ;;;
     validated <- lift (str_field env response_text) ;;
     ret {| qr_response := validated;
            qr_model_used := model_name;
            qr_response_time := response_time |})
    (fun e =>
       if is_HTTPException e then Some (raise e)
       else Some (raise (HTTPException 500 "Ule Msee encountered an internal error"))).

(** One step of a stable sort by [timestamp], largest first: [x], which
    came before every element of [sorted] in the input, goes in front of the
    first element whose timestamp is not larger than its own. *)
Fixpoint insert_desc (x : HistoryItem) (sorted : list HistoryItem) : list HistoryItem :=
  match sorted with
  | [] => [x]
  | y :: rest =>
      if String.ltb (timestamp x) (timestamp y) then y :: insert_desc x rest
      else x :: y :: rest
  end.

(** [sorted(items, key=lambda x: x["timestamp"], reverse=True)]. *)
Definition sorted_desc (items : list HistoryItem) : list HistoryItem :=
  fold_right insert_desc [] items.

(** The slice [l[:limit]]: a negative [limit] counts from the end. *)
Definition slice_to {A : Type} (l : list A) (limit : Z) : list A :=
  if limit <? 0 then firstn (List.length l - Z.to_nat (- limit)) l
  else firstn (Z.to_nat limit) l.

(** [get_history]: nothing in its [try] block can raise on the records
    [ask_question] stores, and [sorted] builds a new list. *)
Definition get_history (limit : Z) : M (list HistoryItem) :=
  fun w => (inr (slice_to (sorted_desc (history_items w)) limit), w).

(** [delete_history_item]: the global is rebound to the filtered list before
    the lengths are compared. *)
Definition delete_history_item (item_id : string) : M string :=
  fun w =>
    let original_length := List.length (history_items w) in
    let kept := filter (fun item => negb (String.eqb (id item) item_id)) (history_items w) in
    let w' := mkWorld kept (events w) in
    if Nat.eqb (List.length kept) original_length then
      (inl (HTTPException 404 "History item not found"), w')
    else
      (inr "History item deleted successfully", w').

(** [clear_history]. *)
Definition clear_history : M string :=
  fun w =>
    let items_count := Z.of_nat (List.length (history_items w)) in
    (inr ("Ule Msee's history cleared successfully (" ++ str_of_int items_count
          ++ " items removed)"),
     mkWorld [] (events w)).

(** The calls the service answers, and the world each one leaves. *)
Inductive Call : Type :=
| AskQuestion (c : GroqClient) (q : string)
| GetHistory (limit : Z)
| DeleteHistoryItem (item_id : string)
| ClearHistory.

Definition handle (call : Call) (w : World) : World :=
  match call with
  | AskQuestion c q => snd (ask_question c q w)
  | GetHistory limit => snd (get_history limit w)
  | DeleteHistoryItem item_id => snd (delete_history_item item_id w)
  | ClearHistory => snd (clear_history w)
  end.

Definition serve (calls : list Call) (w : World) : World :=
  fold_left (fun w call => handle call w) calls w.

End Program.

(** The process starts with an empty history and nothing done yet. *)
Definition initial_world : World := mkWorld [] [].

(** ** Vocabulary of the statements *)

(** What a 200 response yields once its body is read: the content of the
    first choice, or the exception raised on the way. *)
Definition completion_of (resp : Response) : Res JSON :=
  data <~ json resp ;;
  empty <~ no_choices data ;;
  if (empty : bool) then inl (HTTPException 500 "Ule Msee couldn't generate a response")
  else first_content data.

Definition httpx_error (e : Exn) : bool :=
  is_TimeoutException e || is_RequestError e.

Definition is_lookup_error (e : Exn) : bool :=
  match e with
  | AttributeError | KeyError | IndexError | TypeError => true
  | _ => false
  end.

Definition NO_RESPONSE : Exn :=
  HTTPException 500 "Ule Msee couldn't generate a response".

(** The request attempt number [attempt] sends. *)
Definition request_of (c : GroqClient) (q : string) (attempt : Z) : Request :=
  make_request c (model_to_use c attempt) q.

(** The world once attempt [attempt] has sent its request. *)
Definition sent (c : GroqClient) (q : string) (attempt : Z) (w : World) : World :=
  record (EvPost (request_of c q attempt)) w.

(** Number of outbound calls made so far. *)
Definition calls (w : World) : nat := count is_post w.

(** The world a run of [generate_response] leaves, and what it gives back. *)
Definition world_after (env : Env) (c : GroqClient) (q : string) (w : World) : World :=
  snd (generate_response env c q w).

Definition result_of (env : Env) (c : GroqClient) (q : string) (w : World) : Res Answer :=
  fst (generate_response env c q w).

(** The upstream body is a JSON object whose [choices] is an array with a
    first element, and that element's [message.content] is [ai_response]. *)
Definition has_choice (resp : Response) (ai_response : JSON) : Prop :=
  exists fields choice_fields others message_fields,
    decoded resp = Some (JObj fields) /\
    assoc "choices" fields = Some (JArr (JObj choice_fields :: others)) /\
    assoc "message" choice_fields = Some (JObj message_fields) /\
    assoc "content" message_fields = Some ai_response.

(** The upstream body is a JSON object whose [choices] is absent or is an
    empty array. *)
Definition lacks_choices (resp : Response) : Prop :=
  exists fields,
    decoded resp = Some (JObj fields) /\
    (assoc "choices" fields = None \/ assoc "choices" fields = Some (JArr [])).

Definition is_2xx (status : Z) : Prop := 200 <= status < 300.


(** ** Sample inputs *)

(** The client [GroqClient.__init__] builds from the key [gsk_sample]. *)
Definition sample_client : GroqClient :=
  {| api_key := "gsk_sample";
     base_url := "https://api.groq.com/openai/v1";
     model := "llama3-70b-8192";
     fallback_model := "llama3-8b-8192";
     timeout := 30;
     max_retries := 3 |}.

(** A body with one choice whose content is "answer", one with an empty
    [choices] array, and one with an upstream error message. *)
Definition answer_body : JSON :=
  JObj [("choices", JArr [JObj [("message", JObj [("content", JStr "answer")])]])].

Definition empty_body : JSON := JObj [("choices", JArr [])].

Definition error_body : JSON :=
  JObj [("error", JObj [("message", JStr "upstream failed")])].

Definition respond (status : Z) (data : JSON) : Outcome :=
  Responded {| status_code := status; text := "body"; decoded := Some data |}.

(** Surroundings in which the [n]-th outbound call meets [replies n], with
    successive clock readings [clock 0], [clock 1], ... *)
Definition surroundings (replies : nat -> Outcome) (clock : nat -> Q) : Env :=
  {| upstream := replies;
     time_time := clock;
     now_isoformat := fun _ => "2024-01-01T00:00:00";
     uuid4 := fun _ => "00000000-0000-4000-8000-000000000000";
     py_str := fun _ => "?";
     str_field := fun v => match v with JStr s => inr s | _ => inl ValidationError end |}.

Definition steady_clock (n : nat) : Q := inject_Z (Z.of_nat n).

(** A clock that was set back between its first two readings. *)
Definition clock_set_back (n : nat) : Q :=
  match n with
  | O => 5
  | _ => 3
  end.

Definition always (o : Outcome) : Env := surroundings (fun _ => o) steady_clock.

(** ** The claims about a 2xx response, as worded *)

(** Any 2xx response with a first choice on the first attempt makes
    [generate_response] return that choice's content, the primary model and
    an elapsed time that is not negative, after exactly one call. *)
Definition first_success_as_worded (env : Env) (c : GroqClient) (q : string)
    (w : World) : Prop :=
  forall resp ai_response,
    upstream env (calls w) = Responded resp ->
    is_2xx (status_code resp) ->
    has_choice resp ai_response ->
    exists elapsed,
      result_of env c q w = inr (ai_response, model c, elapsed) /\
      (0 <= elapsed)%Q /\
      calls (world_after env c q w) = S (calls w).

(** Any 2xx response without choices met by attempt number [k] makes
    [generate_response] raise, with no call after that one. *)
Definition empty_choices_as_worded (env : Env) (c : GroqClient) (q : string)
    (w : World) : Prop :=
  forall (k : nat) resp,
    (calls w + k < calls (world_after env c q w))%nat ->
    upstream env (calls w + k) = Responded resp ->
    is_2xx (status_code resp) ->
    lacks_choices resp ->
    (exists e, result_of env c q w = inl e) /\
    calls (world_after env c q w) = (calls w + k + 1)%nat.

(** ** The history log: vocabulary and sample inputs *)

(** Appending [records] to [log], one [append_history] after the other. *)
Definition append_all (records : list HistoryItem) (log : list HistoryItem)
    : list HistoryItem :=
  fold_left (fun items item => append_history item items) records log.

(** [a] may stand before [b] in a listing, most recent first: the timestamp
    of [b] is not larger than that of [a]. *)
Definition newer_first (a b : HistoryItem) : Prop :=
  String.leb (timestamp b) (timestamp a) = true.

(** The record [ask_question] stores for an answer, given the world
    [generate_response] left. *)
Definition stored_item (env : Env) (q : string) (answer : Answer) (w1 : World)
    : HistoryItem :=
  let '(response_text, model_name, _) := answer in
  {| id := uuid4 env (count is_uuid w1);
     question := q;
     response := response_text;
     timestamp := now_isoformat env (count is_now w1);
     model_used := model_name |}.

(** Sample records, told apart by their [response]. *)
Definition sample_item (n : nat) : HistoryItem :=
  {| id := "00000000-0000-4000-8000-000000000000";
     question := "hi";
     response := JNum (inject_Z (Z.of_nat n));
     timestamp := "2024-01-01T00:00:00";
     model_used := "llama3-70b-8192" |}.

Definition stamped (stamp : string) : HistoryItem :=
  {| id := stamp;
     question := "hi";
     response := JStr "answer";
     timestamp := stamp;
     model_used := "llama3-70b-8192" |}.

(** A log of two records, the older one first. *)
Definition two_records : World :=
  mkWorld [stamped "2024-01-01T10:00:00"; stamped "2024-01-01T11:00:00"] [].

(** ** The application state, request validation and health *)

(** [AppState]: the attributes [__init__] sets, [startup_time] as seconds. *)
Record AppState : Type := mkAppState {
  startup_time : Q;
  request_count : Z;
  groq_client : option GroqClient
}.

Definition set_groq_client (st : AppState) (c : GroqClient) : AppState :=
  {| startup_time := startup_time st;
     request_count := request_count st;
     groq_client := Some c |}.

(** [get_groq_client], given [os.getenv("GROQ_API_KEY")] at the time of the
    call: the client is built on first use and kept; a [ValueError] of the
    constructor becomes an [HTTPException] carrying its message. *)
Definition get_groq_client (getenv : option string) (st : AppState)
    : Res GroqClient * AppState :=
  match groq_client st with
  | Some c => (inr c, st)
  | None =>
      match GroqClient_init getenv with
      | inr c => (inr c, set_groq_client st c)
      | inl (ValueError msg) => (inl (HTTPException 500 msg), st)
      | inl e => (inl e, st)
      end
  end.

(** The startup half of [lifespan]: any exception of the constructor is
    logged and swallowed. *)
Definition lifespan_startup (getenv : option string) (st : AppState) : AppState :=
  match GroqClient_init getenv with
  | inr c => set_groq_client st c
  | inl _ => st
  end.

Record HealthResponse : Type := mkHealthResponse {
  health_status : string;
  health_timestamp : string;
  groq_available : bool;
  uptime_seconds : Q
}.

(** [health_check], given the environment variable and the two clock
    readings it takes: [now] for the uptime and [stamp], the ISO text of the
    later one.  The client it may build is not kept. *)
Definition health_check (getenv : option string) (now_seconds : Q) (stamp : string)
    (st : AppState) : HealthResponse :=
  let uptime := (now_seconds - startup_time st)%Q in
  let available :=
    match groq_client st with
    | Some _ => true
    | None =>
        match GroqClient_init getenv with
        | inr _ => true
        | inl _ => false
        end
    end in
  {| health_status := if available then "healthy" else "degraded";
     health_timestamp := stamp;
     groq_available := available;
     uptime_seconds := uptime |}.

(** [QuestionRequest.validate_question].  A [str] is a sequence of
    characters; which characters [str.strip] takes for whitespace is the
    runtime's [isspace]. *)
Section Validation.

Variable Char : Type.
Variable isspace : Char -> bool.

(** [s.lstrip()], [s.rstrip()] and [s.strip()]. *)
Fixpoint lstrip (s : list Char) : list Char :=
  match s with
  | [] => []
  | ch :: rest => if isspace ch then lstrip rest else s
  end.

Definition rstrip (s : list Char) : list Char := rev (lstrip (rev s)).

Definition strip (s : list Char) : list Char := rstrip (lstrip s).

Definition validate_question (v : list Char) : Res (list Char) :=
  match strip v with
  | [] => inl (ValueError "Question cannot be empty or just whitespace")
  | _ :: _ => inr (strip v)
  end.

End Validation.

(** ASCII whitespace as [str.isspace] has it: tab to carriage return, the
    four separators 0x1C to 0x1F, and the space. *)
Definition ascii_isspace (ch : ascii) : bool :=
  let n := nat_of_ascii ch in
  ((9 <=? n) && (n <=? 13) || (28 <=? n) && (n <=? 32))%nat.

(** ** Vocabulary for retried attempts *)

(** An outcome the loop retries when it is not the final attempt. *)
Definition retryable (o : Outcome) : Prop :=
  match o with
  | Responded resp => status_code resp <> 200
  | TimedOut | RequestFailed => True
  end.

(** The [asyncio.sleep] an early attempt makes after outcome [o]: none after
    a timeout, [2 ** attempt] otherwise. *)
Definition backoff (o : Outcome) (attempt : Z) : list Z :=
  match o with
  | TimedOut => []
  | _ => [2 ^ attempt]
  end.

(** The sleeps of consecutive early attempts, the first of which makes
    outbound call number [n]. *)
Fixpoint backoffs (env : Env) (n : nat) (attempts : list Z) : list Z :=
  match attempts with
  | [] => []
  | attempt :: rest => (backoff (upstream env n) attempt ++ backoffs env (S n) rest)%list
  end.

Definition total (l : list Z) : Z := fold_right Z.add 0 l.

(** Surroundings in which the first [k] outbound calls meet [early] and all
    later ones [late]. *)
Definition first_then (k : nat) (early late : Outcome) : Env :=
  surroundings (fun n => if (n <? k)%nat then early else late) steady_clock.

(** A record with the given id and timestamp. *)
Definition item_with (item_id stamp : string) : HistoryItem :=
  {| id := item_id;
     question := "hi";
     response := JStr "answer";
     timestamp := stamp;
     model_used := "llama3-70b-8192" |}.

(** The timestamps of a log grow strictly along it. *)
Fixpoint increasing (items : list HistoryItem) : Prop :=
  match items with
  | [] => True
  | x :: rest =>
      Forall (fun y => String.ltb (timestamp x) (timestamp y) = true) rest /\
      increasing rest
  end.

Definition sample_state : AppState :=
  {| startup_time := 0; request_count := 0; groq_client := None |}.

(** A body whose first choice has [null] for content. *)
Definition null_content_body : JSON :=
  JObj [("choices", JArr [JObj [("message", JObj [("content", JNull)])]])].

Definition INTERNAL_ERROR : Exn :=
  HTTPException 500 "Ule Msee encountered an internal error".

(** What every request of a run for question [q] looks like. *)
Definition well_formed (c : GroqClient) (q : string) (req : Request) : Prop :=
  url req = base_url c ++ "/chat/completions" /\
  headers req = [ ("Authorization", "Bearer " ++ api_key c);
                  ("Content-Type", "application/json") ] /\
  messages (body req) = [ {| role := "system"; content := SYSTEM_CONTENT |};
                          {| role := "user"; content := q |} ] /\
  (payload_model (body req) = model c \/ payload_model (body req) = fallback_model c) /\
  stream (body req) = false /\
  request_timeout req = timeout c.

(** * Properties *)

(** ** The world after an effect *)

Lemma count_record (p : Event -> bool) (e : Event) (w : World) :
  count p (record e w) = if p e then S (count p w) else count p w.
Proof.
  unfold count, record; simpl.
  rewrite filter_app, length_app; simpl.
  destruct (p e); simpl; lia.
Qed.

Lemma calls_record (e : Event) (w : World) :
  calls (record e w) = if is_post e then S (calls w) else calls w.
Proof. apply count_record. Qed.

Lemma posts_record (e : Event) (w : World) :
  posts (record e w) =
  (posts w ++ match e with EvPost r => [r] | _ => [] end)%list.
Proof.
  unfold posts, record; simpl.
  rewrite flat_map_app; simpl. now rewrite app_nil_r.
Qed.

Lemma sleeps_record (e : Event) (w : World) :
  sleeps (record e w) =
  (sleeps w ++ match e with EvSleep s => [s] | _ => [] end)%list.
Proof.
  unfold sleeps, record; simpl.
  rewrite flat_map_app; simpl. now rewrite app_nil_r.
Qed.

Lemma posts_length (w : World) : List.length (posts w) = count is_post w.
Proof.
  unfold posts, count.
  induction (events w) as [|e evs IH]; simpl; [reflexivity|].
  destruct e; simpl; auto.
Qed.

Lemma history_record (e : Event) (w : World) :
  history_items (record e w) = history_items w.
Proof. reflexivity. Qed.

(** ** Reading the upstream body *)

(** The accessors raise nothing but the four lookup errors. *)
Lemma py_get_error v key e : py_get v key = inl e -> is_lookup_error e = true.
Proof. destruct v; simpl; intros H; inversion H; reflexivity. Qed.

Lemma py_getitem_error v key e : py_getitem v key = inl e -> is_lookup_error e = true.
Proof.
  destruct v; simpl; intros H; try (inversion H; reflexivity).
  destruct (assoc key fields); inversion H; reflexivity.
Qed.

Lemma py_getitem0_error v e : py_getitem0 v = inl e -> is_lookup_error e = true.
Proof.
  destruct v as [| | |s|items|]; simpl; intros H; try (inversion H; reflexivity).
  - destruct s; inversion H; reflexivity.
  - destruct items; inversion H; reflexivity.
Qed.

Lemma py_len_error v e : py_len v = inl e -> is_lookup_error e = true.
Proof. destruct v; simpl; intros H; inversion H; reflexivity. Qed.

Lemma no_choices_error data e : no_choices data = inl e -> is_lookup_error e = true.
Proof.
  unfold no_choices, rbind.
  destruct (py_get data "choices") as [e1|choices] eqn:G.
  - intros H; inversion H; subst. eauto using py_get_error.
  - destruct (negb (truthy choices)); [discriminate|].
    destruct (py_getitem data "choices") as [e2|again] eqn:I.
    + intros H; inversion H; subst. eauto using py_getitem_error.
    + destruct (py_len again) as [e3|n] eqn:L; [|discriminate].
      intros H; inversion H; subst. eauto using py_len_error.
Qed.

Lemma first_content_error data e : first_content data = inl e -> is_lookup_error e = true.
Proof.
  unfold first_content, rbind.
  destruct (py_getitem data "choices") as [e1|choices] eqn:A.
  { intros H; inversion H; subst. eauto using py_getitem_error. }
  destruct (py_getitem0 choices) as [e2|choice] eqn:B.
  { intros H; inversion H; subst. eauto using py_getitem0_error. }
  destruct (py_getitem choice "message") as [e3|message] eqn:C.
  { intros H; inversion H; subst. eauto using py_getitem_error. }
  intros H. eauto using py_getitem_error.
Qed.

(** Reading a 200 body raises [NO_RESPONSE], a decode error or a lookup
    error, nothing else. *)
Lemma completion_error resp e :
  completion_of resp = inl e ->
  e = NO_RESPONSE \/ e = JSONDecodeError \/ is_lookup_error e = true.
Proof.
  unfold completion_of, json, rbind.
  destruct (decoded resp) as [data|]; [|intros H; inversion H; auto].
  destruct (no_choices data) as [e1|empty] eqn:N.
  - intros H; inversion H; subst. eauto using no_choices_error.
  - destruct empty.
    + intros H; inversion H; auto.
    + intros H. eauto using first_content_error.
Qed.

Lemma completion_not_httpx resp e : completion_of resp = inl e -> httpx_error e = false.
Proof.
  intros H. destruct (completion_error _ _ H) as [->| [->|L]]; try reflexivity.
  destruct e; try discriminate; reflexivity.
Qed.

(** ** One attempt *)

Section Attempt.

Variable env : Env.
Variable c : GroqClient.
Variable q : string.
Variable start_time : Q.

Local Abbreviation body := (attempt_body env c q start_time).

Ltac run_body H :=
  unfold attempt_body, try_except, bind, post, sent, request_of, calls in *;
  rewrite H; simpl.

Lemma body_timed_out attempt w :
  upstream env (calls w) = TimedOut ->
  body attempt w =
  if attempt <? max_retries c - 1 then (inr Continue, sent c q attempt w)
  else (inl (HTTPException 504 "Ule Msee is taking too long to respond. Please try again."),
        sent c q attempt w).
Proof.
  intros H. run_body H.
  destruct (attempt <? max_retries c - 1); reflexivity.
Qed.

Lemma body_request_failed attempt w :
  upstream env (calls w) = RequestFailed ->
  body attempt w =
  if attempt <? max_retries c - 1 then
    (inr Continue, record (EvSleep (2 ^ attempt)) (sent c q attempt w))
  else (inl (HTTPException 503 "Unable to connect to Ule Msee's AI service"),
        sent c q attempt w).
Proof.
  intros H. run_body H.
  destruct (attempt <? max_retries c - 1); reflexivity.
Qed.

Lemma body_429 attempt w resp :
  upstream env (calls w) = Responded resp ->
  status_code resp = 429 ->
  body attempt w =
  if attempt <? max_retries c - 1 then
    (inr Continue, record (EvSleep (2 ^ attempt)) (sent c q attempt w))
  else (inr FallThrough, sent c q attempt w).
Proof.
  intros H S. run_body H. rewrite S; simpl.
  destruct (attempt <? max_retries c - 1); reflexivity.
Qed.

Lemma body_other attempt w resp :
  upstream env (calls w) = Responded resp ->
  status_code resp <> 200 ->
  status_code resp <> 429 ->
  body attempt w =
  if attempt <? max_retries c - 1 then
    (inr Continue, record (EvSleep (2 ^ attempt)) (sent c q attempt w))
  else (inl (HTTPException (status_code resp) (error_detail env resp)),
        sent c q attempt w).
Proof.
  intros H S200 S429. run_body H.
  destruct (status_code resp =? 200) eqn:E1; [apply Z.eqb_eq in E1; contradiction|].
  destruct (status_code resp =? 429) eqn:E2; [apply Z.eqb_eq in E2; contradiction|].
  destruct (attempt <? max_retries c - 1); reflexivity.
Qed.

Lemma body_200 attempt w resp :
  upstream env (calls w) = Responded resp ->
  status_code resp = 200 ->
  body attempt w =
  match completion_of resp with
  | inl e => (inl e, sent c q attempt w)
  | inr ai_response =>
      (inr (Return (ai_response, model_to_use c attempt,
                    (time_time env (count is_time (sent c q attempt w)) - start_time)%Q)),
       record EvTime (sent c q attempt w))
  end.
Proof.
  intros H S. run_body H. rewrite S; simpl.
  pose proof (completion_not_httpx resp) as NH.
  unfold completion_of, lift, rbind in *.
  destruct (json resp) as [e|data]; simpl.
  { specialize (NH e eq_refl). unfold httpx_error in NH.
    apply orb_false_iff in NH as [-> ->]. reflexivity. }
  destruct (no_choices data) as [e|empty]; simpl.
  { specialize (NH e eq_refl). unfold httpx_error in NH.
    apply orb_false_iff in NH as [-> ->]. reflexivity. }
  destruct empty; simpl; [reflexivity|].
  destruct (first_content data) as [e|ai]; simpl; [|reflexivity].
  specialize (NH e eq_refl). unfold httpx_error in NH.
  apply orb_false_iff in NH as [-> ->]. reflexivity.
Qed.

(** Every way one attempt can end, by what the upstream did. *)
Ltac body_cases attempt w :=
  let U := fresh "U" in
  let resp := fresh "resp" in
  destruct (upstream env (calls w)) as [resp| |] eqn:U;
  [ destruct (Z.eq_dec (status_code resp) 200) as [S200|S200];
    [ rewrite (body_200 attempt w resp U S200);
      destruct (completion_of resp)
    | destruct (Z.eq_dec (status_code resp) 429) as [S429|S429];
      [ rewrite (body_429 attempt w resp U S429)
      | rewrite (body_other attempt w resp U S200 S429) ];
      destruct (attempt <? max_retries c - 1) eqn:Early ]
  | rewrite (body_timed_out attempt w U);
    destruct (attempt <? max_retries c - 1) eqn:Early
  | rewrite (body_request_failed attempt w U);
    destruct (attempt <? max_retries c - 1) eqn:Early ].

(** An attempt sends exactly one request, the one built for its number, and
    leaves the history alone. *)
Lemma body_sends_once attempt w x w' :
  body attempt w = (x, w') ->
  calls w' = S (calls w) /\
  posts w' = (posts w ++ [request_of c q attempt])%list /\
  history_items w' = history_items w.
Proof.
  unfold calls.
  body_cases attempt w; intros H; inversion H; subst; clear H;
    unfold sent; repeat rewrite ?count_record, ?posts_record, ?history_record;
    simpl; rewrite ?app_nil_r; auto.
Qed.

Lemma body_continue attempt w w' :
  body attempt w = (inr Continue, w') -> attempt < max_retries c - 1.
Proof.
  body_cases attempt w; intros H; inversion H; subst; clear H;
    apply Z.ltb_lt; assumption.
Qed.

Lemma body_fall_through attempt w w' :
  body attempt w = (inr FallThrough, w') ->
  exists resp, upstream env (calls w) = Responded resp /\ status_code resp = 429.
Proof.
  body_cases attempt w; intros H; inversion H; subst; clear H; eauto.
Qed.

End Attempt.

(** ** The retry loop *)

Lemma py_range_last (n : Z) :
  1 <= n -> py_range n = (py_range (n - 1) ++ [n - 1])%list.
Proof.
  intros H. unfold py_range.
  replace (Z.to_nat n) with (S (Z.to_nat (n - 1))) by lia.
  rewrite seq_S, map_app; simpl.
  do 2 f_equal. lia.
Qed.

Lemma py_range_length (n : Z) : List.length (py_range n) = Z.to_nat n.
Proof. unfold py_range. now rewrite length_map, length_seq. Qed.

Lemma py_range_bound (n : Z) : Forall (fun a => 0 <= a < n) (py_range n).
Proof.
  unfold py_range. apply Forall_forall. intros a Ha.
  apply in_map_iff in Ha as (k & <- & Hk). apply in_seq in Hk. lia.
Qed.

Lemma py_range_nth (n : Z) (k : nat) :
  (k < Z.to_nat n)%nat -> nth_error (py_range n) k = Some (Z.of_nat k).
Proof.
  intros H. unfold py_range.
  rewrite nth_error_map, nth_error_seq.
  destruct (Nat.ltb_spec k (Z.to_nat n)); [reflexivity|lia].
Qed.

Section Loop.

Variable env : Env.
Variable c : GroqClient.
Variable q : string.
Variable start_time : Q.

Local Abbreviation body := (attempt_body env c q start_time).
Local Abbreviation loop := (for_attempts body).

Lemma loop_step attempt rest w :
  loop (attempt :: rest) w =
  match body attempt w with
  | (inl e, w1) => (inl e, w1)
  | (inr (Return a), w1) => (inr (Some a), w1)
  | (inr _, w1) => loop rest w1
  end.
Proof.
  simpl. unfold bind.
  destruct (body attempt w) as [[e|[| |a]] w1]; reflexivity.
Qed.

(** The loop sends one request per attempt it starts, in order, and leaves
    the history alone. *)
Lemma loop_sends attempts : forall w res w',
  loop attempts w = (res, w') ->
  history_items w' = history_items w /\
  exists m, (m <= List.length attempts)%nat /\
    calls w' = (calls w + m)%nat /\
    posts w' = (posts w ++ map (request_of c q) (firstn m attempts))%list.
Proof.
  induction attempts as [|a rest IH]; intros w res w' H.
  - inversion H; subst. split; [reflexivity|].
    exists 0%nat. simpl. rewrite app_nil_r. repeat split; lia.
  - rewrite loop_step in H.
    destruct (body a w) as [x w1] eqn:B.
    apply body_sends_once in B as (C1 & P1 & H1).
    assert (Stop : w' = w1 ->
      history_items w' = history_items w /\
      exists m, (m <= List.length (a :: rest))%nat /\
        calls w' = (calls w + m)%nat /\
        posts w' = (posts w ++ map (request_of c q) (firstn m (a :: rest)))%list).
    { intros ->. split; [assumption|].
      exists 1%nat. simpl. repeat split; [lia|lia|assumption]. }
    assert (Go : loop rest w1 = (res, w') ->
      history_items w' = history_items w /\
      exists m, (m <= List.length (a :: rest))%nat /\
        calls w' = (calls w + m)%nat /\
        posts w' = (posts w ++ map (request_of c q) (firstn m (a :: rest)))%list).
    { intros L. apply IH in L as (HH & m & Hm & Cm & Pm).
      split; [congruence|].
      exists (S m). simpl. repeat split; [lia|lia|].
      rewrite Pm, P1, <- app_assoc. reflexivity. }
    destruct x as [e|[| |ans]]; try (apply Go; assumption);
      inversion H; subst; apply Stop; reflexivity.
Qed.

Lemma loop_calls_bounds attempts w res w' :
  loop attempts w = (res, w') ->
  (calls w <= calls w' <= calls w + List.length attempts)%nat.
Proof.
  intros H. apply loop_sends in H as (_ & m & Hm & Cm & _). lia.
Qed.

(** If the run got past [k] calls, attempt number [k] was started, and the
    rest of the run is the loop over the remaining attempts. *)
Lemma loop_reaches : forall (k : nat) attempts w res w',
  loop attempts w = (res, w') ->
  (calls w + k < calls w')%nat ->
  exists w0,
    calls w0 = (calls w + k)%nat /\
    loop (skipn k attempts) w0 = (res, w').
Proof.
  induction k as [|k IH]; intros attempts w res w' H Hk.
  - exists w. split; [lia|assumption].
  - destruct attempts as [|a rest].
    + inversion H; subst. lia.
    + rewrite loop_step in H.
      destruct (body a w) as [x w1] eqn:B.
      apply body_sends_once in B as (C1 & _ & _).
      assert (Go : loop rest w1 = (res, w') ->
        exists w0, calls w0 = (calls w + S k)%nat /\
                   loop (skipn (S k) (a :: rest)) w0 = (res, w')).
      { intros L. apply IH in L as (w0 & C0 & L0); [|lia].
        exists w0. split; [lia|assumption]. }
      destruct x as [e|[| |ans]]; try (apply Go; assumption);
        inversion H; subst; lia.
Qed.

(** Attempts that all meet a status other than 200 and 429: the early ones
    back off and continue, the last one raises with the status and detail of
    its own response. *)
Lemma loop_persistent_failure : forall init last w,
  Forall (fun a => a < max_retries c - 1) init ->
  max_retries c - 1 <= last ->
  (forall k, (k <= List.length init)%nat ->
     exists resp, upstream env (calls w + k) = Responded resp /\
                  status_code resp <> 200 /\ status_code resp <> 429) ->
  exists resp w',
    upstream env (calls w + List.length init) = Responded resp /\
    loop (init ++ [last]) w =
      (inl (HTTPException (status_code resp) (error_detail env resp)), w') /\
    calls w' = (calls w + List.length init + 1)%nat /\
    sleeps w' = (sleeps w ++ map (fun a => 2 ^ a) init)%list.
Proof.
  induction init as [|a init IH]; intros last w Hinit Hlast Hup.
  - destruct (Hup 0%nat) as (resp & U & S200 & S429); [simpl; lia|].
    rewrite Nat.add_0_r in U.
    exists resp, (sent c q last w). cbn [app List.length map].
    rewrite Nat.add_0_r, loop_step, (body_other env c q start_time last w resp U S200 S429).
    destruct (Z.ltb_spec last (max_retries c - 1)); [lia|].
    unfold calls, sent. rewrite count_record, sleeps_record, app_nil_r; simpl.
    repeat split; [assumption|lia].
  - inversion Hinit as [|? ? Ha Hrest]; subst.
    destruct (Hup 0%nat) as (resp0 & U0 & S200 & S429); [simpl; lia|].
    rewrite Nat.add_0_r in U0.
    set (w1 := record (EvSleep (2 ^ a)) (sent c q a w)).
    assert (C1 : calls w1 = S (calls w)).
    { unfold w1, calls, sent. now rewrite !count_record. }
    destruct (IH last w1 Hrest Hlast) as (resp & w' & U & L & C & SL).
    { intros k Hk. rewrite C1.
      replace (S (calls w) + k)%nat with (calls w + S k)%nat by lia.
      apply Hup. simpl; lia. }
    exists resp, w'. cbn [app List.length map].
    rewrite loop_step, (body_other env c q start_time a w resp0 U0 S200 S429).
    destruct (Z.ltb_spec a (max_retries c - 1)); [|lia].
    fold w1. rewrite C1 in U, C.
    replace (calls w + S (List.length init))%nat
      with (S (calls w) + List.length init)%nat by lia.
    repeat split; [assumption|assumption|lia|].
    rewrite SL. unfold w1, sent. rewrite !sleeps_record; simpl.
    now rewrite app_nil_r, <- app_assoc.
Qed.

(** The loop runs off its end exactly when every attempt was started and the
    last one met a 429. *)
Lemma loop_exhausted_iff : forall init last w res w',
  Forall (fun a => a < max_retries c - 1) init ->
  max_retries c - 1 <= last ->
  loop (init ++ [last]) w = (res, w') ->
  (res = inr None <->
   calls w' = (calls w + List.length init + 1)%nat /\
   exists resp, upstream env (calls w + List.length init) = Responded resp /\
                status_code resp = 429).
Proof.
  induction init as [|a init IH]; intros last w res w' Hinit Hlast H; cbn [app] in H.
  - rewrite loop_step in H. simpl. rewrite Nat.add_0_r.
    destruct (body last w) as [x w1] eqn:B.
    pose proof (body_sends_once env c q start_time _ _ _ _ B) as (C1 & _ & _).
    destruct x as [e|[| |ans]].
    + inversion H; subst. split; [discriminate|].
      intros (_ & resp & U & S429).
      rewrite (body_429 env c q start_time last w resp U S429) in B.
      destruct (last <? max_retries c - 1); discriminate.
    + apply body_continue in B. lia.
    + inversion H; subst. apply body_fall_through in B.
      split; [intros _; split; [lia|assumption]|reflexivity].
    + inversion H; subst. split; [discriminate|].
      intros (_ & resp & U & S429).
      rewrite (body_429 env c q start_time last w resp U S429) in B.
      destruct (last <? max_retries c - 1); discriminate.
  - inversion Hinit as [|? ? Ha Hrest]; subst.
    rewrite loop_step in H.
    destruct (body a w) as [x w1] eqn:B.
    pose proof (body_sends_once env c q start_time _ _ _ _ B) as (C1 & _ & _).
    assert (Go : loop (init ++ [last]) w1 = (res, w') ->
      (res = inr None <->
       calls w' = (calls w + List.length (a :: init) + 1)%nat /\
       exists resp, upstream env (calls w + List.length (a :: init)) = Responded resp /\
                    status_code resp = 429)).
    { intros L. apply (IH last w1 res w' Hrest Hlast) in L.
      rewrite C1 in L. simpl.
      replace (calls w + S (List.length init))%nat
        with (S (calls w) + List.length init)%nat by lia.
      exact L. }
    assert (Stop : forall r, res = r -> r <> inr None -> w' = w1 ->
      (res = inr None <->
       calls w' = (calls w + List.length (a :: init) + 1)%nat /\
       exists resp, upstream env (calls w + List.length (a :: init)) = Responded resp /\
                    status_code resp = 429)).
    { intros r -> Hr ->. simpl. split; [contradiction|]. intros (Hc & _). lia. }
    destruct x as [e|[| |ans]]; try (apply Go; assumption);
      inversion H; subst; eapply Stop; try reflexivity; discriminate.
Qed.

End Loop.

(** ** The whole of [generate_response] *)

Section Generate.

Variable env : Env.
Variable c : GroqClient.
Variable q : string.

(** The run reads the clock, then loops; a loop that runs off its end is
    the only way to the final [raise]. *)
Lemma generate_response_eq w :
  generate_response env c q w =
  match for_attempts (attempt_body env c q (time_time env (count is_time w)))
          (py_range (max_retries c)) (record EvTime w) with
  | (inl e, w') => (inl e, w')
  | (inr (Some a), w') => (inr a, w')
  | (inr None, w') => (inl UNAVAILABLE, w')
  end.
Proof.
  unfold generate_response, bind, time; simpl.
  destruct (for_attempts _ _ _) as [[e|[a|]] w']; reflexivity.
Qed.

Lemma calls_after_clock w : calls (record EvTime w) = calls w.
Proof. unfold calls. now rewrite count_record. Qed.

(** [generate_response] never touches the history and makes at most
    [max_retries] calls, the [k]-th of which is the request of attempt [k]. *)
Lemma generate_response_sends w :
  history_items (world_after env c q w) = history_items w /\
  exists m, (m <= Z.to_nat (max_retries c))%nat /\
    calls (world_after env c q w) = (calls w + m)%nat /\
    posts (world_after env c q w) =
      (posts w ++ map (request_of c q) (firstn m (py_range (max_retries c))))%list.
Proof.
  unfold world_after. rewrite generate_response_eq.
  destruct (for_attempts _ _ _) as [res w'] eqn:L.
  apply loop_sends in L as (H & m & Hm & Cm & Pm).
  rewrite py_range_length in Hm. rewrite calls_after_clock in Cm.
  rewrite posts_record, app_nil_r in Pm.
  assert (E : forall (x : Res Answer * World), snd x = w' ->
            history_items (snd x) = history_items w /\
            exists m, (m <= Z.to_nat (max_retries c))%nat /\
              calls (snd x) = (calls w + m)%nat /\
              posts (snd x) =
                (posts w ++ map (request_of c q) (firstn m (py_range (max_retries c))))%list).
  { intros x ->. split; [exact H|]. exists m. auto. }
  destruct res as [e|[a|]]; apply E; reflexivity.
Qed.

End Generate.

(** ** The detail of an upstream error *)

Lemma error_detail_message env resp fields err message :
  decoded resp = Some (JObj fields) ->
  assoc "error" fields = Some (JObj err) ->
  assoc "message" err = Some (JStr message) ->
  error_detail env resp =
  "Groq API error: " ++ str_of_int (status_code resp) ++ " - " ++ message.
Proof.
  intros D E M. unfold error_detail, json, rbind, py_get_default.
  rewrite D; simpl. rewrite E; simpl. rewrite M; simpl.
  reflexivity.
Qed.

Lemma error_detail_raw env resp :
  decoded resp = None ->
  error_detail env resp =
  "Groq API error: " ++ str_of_int (status_code resp) ++ " - " ++ text resp.
Proof.
  intros D. unfold error_detail, json, rbind. rewrite D. reflexivity.
Qed.

Lemma error_detail_head env resp :
  exists tail, error_detail env resp = "Groq API error: " ++ tail.
Proof.
  unfold error_detail.
  match goal with |- context [match ?t with inl _ => _ | inr _ => _ end] =>
    destruct t as [e|s] eqn:T end.
  - eexists. reflexivity.
  - unfold rbind in T.
    destruct (json resp) as [|data]; [discriminate|].
    destruct (py_get_default data "error" (JObj [])) as [|err]; [discriminate|].
    destruct (py_get_default err "message" (JStr "Unknown error")) as [|m]; [discriminate|].
    inversion T. eexists. reflexivity.
Qed.

(** ** Persistent upstream errors *)

(** C3.  If every attempt of [generate_response] meets a response whose
    status is neither 200 nor 429 (a 500, say), the run makes exactly
    [max_retries] outbound calls and then raises an [HTTPException] that
    carries the status code of the last response and a detail built from
    it: the upstream's [error.message] when the body is JSON that has one,
    the raw body when it is not JSON. *)
Theorem persistent_upstream_error
    (env : Env) (c : GroqClient) (q : string) (w : World) :
  1 <= max_retries c ->
  (forall k, (k < Z.to_nat (max_retries c))%nat ->
     exists resp, upstream env (calls w + k) = Responded resp /\
                  status_code resp <> 200 /\ status_code resp <> 429) ->
  exists resp,
    upstream env (calls w + (Z.to_nat (max_retries c) - 1)) = Responded resp /\
    result_of env c q w =
      inl (HTTPException (status_code resp) (error_detail env resp)) /\
    calls (world_after env c q w) = (calls w + Z.to_nat (max_retries c))%nat /\
    (forall fields err message,
       decoded resp = Some (JObj fields) ->
       assoc "error" fields = Some (JObj err) ->
       assoc "message" err = Some (JStr message) ->
       error_detail env resp =
       "Groq API error: " ++ str_of_int (status_code resp) ++ " - " ++ message) /\
    (decoded resp = None ->
       error_detail env resp =
       "Groq API error: " ++ str_of_int (status_code resp) ++ " - " ++ text resp).
Proof.
  intros Hmax Hup.
  unfold result_of, world_after. rewrite generate_response_eq.
  rewrite (py_range_last _ Hmax).
  destruct (loop_persistent_failure env c q (time_time env (count is_time w))
              (py_range (max_retries c - 1)) (max_retries c - 1) (record EvTime w))
    as (resp & w' & U & L & C & _).
  - eapply Forall_impl; [|apply py_range_bound]. simpl; intros; lia.
  - lia.
  - intros k Hk. rewrite py_range_length in Hk. rewrite calls_after_clock.
    apply Hup. lia.
  - rewrite py_range_length, calls_after_clock in U, C.
    replace (Z.to_nat (max_retries c - 1)) with (Z.to_nat (max_retries c) - 1)%nat in U, C by lia.
    exists resp. rewrite L; simpl.
    repeat split.
    + exact U.
    + lia.
    + apply error_detail_message.
    + apply error_detail_raw.
Qed.

Lemma persistent_upstream_error_witness :
  exists resp,
    upstream (always (respond 500 error_body))
      (calls initial_world + (Z.to_nat (max_retries sample_client) - 1)) = Responded resp /\
    result_of (always (respond 500 error_body)) sample_client "hi" initial_world =
      inl (HTTPException (status_code resp)
             (error_detail (always (respond 500 error_body)) resp)) /\
    calls (world_after (always (respond 500 error_body)) sample_client "hi" initial_world)
      = (calls initial_world + Z.to_nat (max_retries sample_client))%nat /\
    (forall fields err message,
       decoded resp = Some (JObj fields) ->
       assoc "error" fields = Some (JObj err) ->
       assoc "message" err = Some (JStr message) ->
       error_detail (always (respond 500 error_body)) resp =
       "Groq API error: " ++ str_of_int (status_code resp) ++ " - " ++ message) /\
    (decoded resp = None ->
       error_detail (always (respond 500 error_body)) resp =
       "Groq API error: " ++ str_of_int (status_code resp) ++ " - " ++ text resp).
Proof.
  apply (persistent_upstream_error (always (respond 500 error_body)) sample_client "hi"
           initial_world).
  - simpl. lia.
  - intros k Hk. eexists. split; [reflexivity|split; simpl; lia].
Defined.

(** The run on persistent 500 responses, step by step. *)
Example persistent_500_run :
  result_of (always (respond 500 error_body)) sample_client "hi" initial_world =
    inl (HTTPException 500 "Groq API error: 500 - upstream failed") /\
  map (fun r => payload_model (body r))
    (posts (world_after (always (respond 500 error_body)) sample_client "hi" initial_world))
    = ["llama3-70b-8192"; "llama3-70b-8192"; "llama3-8b-8192"] /\
  sleeps (world_after (always (respond 500 error_body)) sample_client "hi" initial_world)
    = [1; 2].
Proof. repeat split; vm_compute; reflexivity. Qed.

(** ** The final raise *)

Lemma body_never_unavailable env c q t0 attempt w e w' :
  attempt_body env c q t0 attempt w = (inl e, w') -> e <> UNAVAILABLE.
Proof.
  destruct (upstream env (calls w)) as [resp| |] eqn:U.
  - destruct (Z.eq_dec (status_code resp) 200) as [S200|S200].
    + rewrite (body_200 env c q t0 attempt w resp U S200).
      destruct (completion_of resp) as [e'|a] eqn:K; [|discriminate].
      intros H; inversion H; subst.
      destruct (completion_error _ _ K) as [->| [->|NH]]; try discriminate.
      intros ->. discriminate.
    + destruct (Z.eq_dec (status_code resp) 429) as [S429|S429].
      * rewrite (body_429 env c q t0 attempt w resp U S429).
        destruct (attempt <? max_retries c - 1); discriminate.
      * rewrite (body_other env c q t0 attempt w resp U S200 S429).
        destruct (attempt <? max_retries c - 1); [discriminate|].
        intros H; inversion H; subst.
        destruct (error_detail_head env resp) as (tail & ->).
        discriminate.
  - rewrite (body_timed_out env c q t0 attempt w U).
    destruct (attempt <? max_retries c - 1); [discriminate|].
    intros H; inversion H; discriminate.
  - rewrite (body_request_failed env c q t0 attempt w U).
    destruct (attempt <? max_retries c - 1); [discriminate|].
    intros H; inversion H; discriminate.
Qed.

Lemma loop_never_unavailable env c q t0 attempts : forall w e w',
  for_attempts (attempt_body env c q t0) attempts w = (inl e, w') ->
  e <> UNAVAILABLE.
Proof.
  induction attempts as [|a rest IH]; intros w e w' H.
  - discriminate.
  - rewrite loop_step in H.
    destruct (attempt_body env c q t0 a w) as [[e1|[| |ans]] w1] eqn:B;
      try (eapply IH; eassumption); [|discriminate].
    inversion H; subst. eapply body_never_unavailable; eassumption.
Qed.

(** ** A 200 response *)

Lemma completion_of_choice resp ai_response :
  has_choice resp ai_response -> completion_of resp = inr ai_response.
Proof.
  intros (fields & cf & others & mf & D & C & Mg & Ct).
  unfold completion_of, json, no_choices, first_content, rbind,
    py_get, py_getitem, py_getitem0, py_len.
  rewrite D; simpl. rewrite C; simpl. rewrite Mg, Ct.
  destruct (Z.eqb_spec (Z.of_nat (S (List.length others))) 0); [lia|reflexivity].
Qed.

Lemma completion_of_no_choices resp :
  lacks_choices resp -> completion_of resp = inl NO_RESPONSE.
Proof.
  intros (fields & D & [C|C]);
    unfold completion_of, json, no_choices, rbind, py_get;
    rewrite D; simpl; rewrite C; reflexivity.
Qed.

(** C4, as the code has it.  If the call of the first attempt is answered
    with status 200 and a body that has a first choice, [generate_response]
    returns that choice's content, the primary model and the difference of
    the clock readings taken at the return and at the start; it has sent
    exactly one request, the one for the primary model, and nothing follows
    it.  The elapsed time is not negative whenever the clock did not go
    back between the two readings.  This holds for every question string,
    valid ones included. *)
Theorem first_attempt_success
    (env : Env) (c : GroqClient) (q : string) (w : World)
    (resp : Response) (ai_response : JSON) :
  1 <= max_retries c ->
  upstream env (calls w) = Responded resp ->
  status_code resp = 200 ->
  has_choice resp ai_response ->
  result_of env c q w =
    inr (ai_response, model c,
         (time_time env (S (count is_time w)) - time_time env (count is_time w))%Q) /\
  world_after env c q w =
    record EvTime (record (EvPost (make_request c (model c) q)) (record EvTime w)) /\
  calls (world_after env c q w) = S (calls w) /\
  ((time_time env (count is_time w) <= time_time env (S (count is_time w)))%Q ->
   (0 <= time_time env (S (count is_time w)) - time_time env (count is_time w))%Q).
Proof.
  intros Hmax U S200 Hc.
  unfold result_of, world_after. rewrite generate_response_eq.
  assert (R : py_range (max_retries c) = 0 :: map Z.of_nat (seq 1 (Z.to_nat (max_retries c) - 1))).
  { unfold py_range. replace (Z.to_nat (max_retries c)) with (S (Z.to_nat (max_retries c) - 1)) at 1 by lia.
    reflexivity. }
  rewrite R, loop_step.
  rewrite <- calls_after_clock in U.
  rewrite (body_200 env c q _ 0 _ resp U S200), (completion_of_choice _ _ Hc).
  unfold sent, request_of, model_to_use, calls; simpl.
  rewrite !count_record; simpl.
  repeat split.
  intros Hclock. now apply (Qplus_le_l _ _ (time_time env (count is_time w))); ring_simplify.
Qed.

Lemma first_attempt_success_witness :
  result_of (always (respond 200 answer_body)) sample_client "hi" initial_world =
    inr (JStr "answer", model sample_client,
         (steady_clock (S (count is_time initial_world))
          - steady_clock (count is_time initial_world))%Q) /\
  world_after (always (respond 200 answer_body)) sample_client "hi" initial_world =
    record EvTime
      (record (EvPost (make_request sample_client (model sample_client) "hi"))
         (record EvTime initial_world)) /\
  calls (world_after (always (respond 200 answer_body)) sample_client "hi" initial_world)
    = S (calls initial_world) /\
  ((steady_clock (count is_time initial_world)
    <= steady_clock (S (count is_time initial_world)))%Q ->
   (0 <= steady_clock (S (count is_time initial_world))
         - steady_clock (count is_time initial_world))%Q).
Proof.
  apply (first_attempt_success (always (respond 200 answer_body)) sample_client "hi"
           initial_world
           {| status_code := 200; text := "body"; decoded := Some answer_body |}
           (JStr "answer")).
  - simpl. lia.
  - reflexivity.
  - reflexivity.
  - unfold has_choice. do 4 eexists. repeat split; reflexivity.
Defined.

(** The claim as worded fails for a 201 response that has a choice: the
    code tests [status_code == 200], so the response is handled as an
    upstream error.  It also fails for the elapsed time when the clock is
    set back between the two readings. *)
Lemma first_success_as_worded_fails :
  ~ first_success_as_worded (always (respond 201 answer_body))
      sample_client "hi" initial_world /\
  ~ first_success_as_worded (surroundings (fun _ => respond 200 answer_body) clock_set_back)
      sample_client "hi" initial_world.
Proof.
  split; intros H.
  - destruct (H {| status_code := 201; text := "body"; decoded := Some answer_body |}
                (JStr "answer")) as (elapsed & R & _).
    + reflexivity.
    + unfold is_2xx; simpl; lia.
    + unfold has_choice. do 4 eexists. repeat split; reflexivity.
    + vm_compute in R. discriminate.
  - destruct (H {| status_code := 200; text := "body"; decoded := Some answer_body |}
                (JStr "answer")) as (elapsed & R & Neg & _).
    + reflexivity.
    + unfold is_2xx; simpl; lia.
    + unfold has_choice. do 4 eexists. repeat split; reflexivity.
    + vm_compute in R. inversion R; subst elapsed.
      unfold Qle in Neg; simpl in Neg. lia.
Qed.

(** C5, as the code has it.  Whenever an attempt of [generate_response]
    (the one making call number [k] of the run) is answered with status 200
    and a body whose [choices] is absent or empty, the run raises the
    "couldn't generate a response" [HTTPException] with status 500 and that
    call is its last: no further attempt is made. *)
Theorem empty_choices_is_terminal
    (env : Env) (c : GroqClient) (q : string) (w : World)
    (k : nat) (resp : Response) :
  (calls w + k < calls (world_after env c q w))%nat ->
  upstream env (calls w + k) = Responded resp ->
  status_code resp = 200 ->
  lacks_choices resp ->
  result_of env c q w = inl NO_RESPONSE /\
  calls (world_after env c q w) = (calls w + k + 1)%nat.
Proof.
  unfold result_of, world_after. rewrite generate_response_eq.
  destruct (for_attempts _ _ _) as [res w'] eqn:L.
  intros Hk U S200 Hno.
  assert (Hk' : (calls (record EvTime w) + k < calls w')%nat).
  { rewrite calls_after_clock. destruct res as [e|[a|]]; exact Hk. }
  destruct (loop_reaches _ _ _ _ k _ _ _ _ L Hk') as (w0 & C0 & L0).
  rewrite calls_after_clock in C0.
  destruct (skipn k (py_range (max_retries c))) as [|a rest].
  - inversion L0; subst. rewrite calls_after_clock in Hk'. lia.
  - rewrite loop_step in L0. rewrite <- C0 in U.
    rewrite (body_200 env c q _ a w0 resp U S200),
      (completion_of_no_choices _ Hno) in L0.
    inversion L0; subst. simpl.
    unfold sent, calls in *. rewrite count_record; simpl.
    split; [reflexivity|lia].
Qed.

Lemma empty_choices_is_terminal_witness :
  result_of (always (respond 200 empty_body)) sample_client "hi" initial_world
    = inl NO_RESPONSE /\
  calls (world_after (always (respond 200 empty_body)) sample_client "hi" initial_world)
    = (calls initial_world + 0 + 1)%nat.
Proof.
  apply (empty_choices_is_terminal (always (respond 200 empty_body)) sample_client "hi"
           initial_world 0
           {| status_code := 200; text := "body"; decoded := Some empty_body |}).
  - vm_compute. lia.
  - reflexivity.
  - reflexivity.
  - exists [("choices", JArr [])]. split; [reflexivity|right; reflexivity].
Defined.

(** The claim as worded fails for a 201 response with an empty [choices]
    array on the first attempt: it is retried like any upstream error, and
    three calls are made. *)
Lemma empty_choices_as_worded_fails :
  ~ empty_choices_as_worded (always (respond 201 empty_body))
      sample_client "hi" initial_world.
Proof.
  intros H.
  destruct (H 0%nat {| status_code := 201; text := "body"; decoded := Some empty_body |})
    as (_ & C).
  - vm_compute. lia.
  - reflexivity.
  - unfold is_2xx; simpl; lia.
  - exists [("choices", JArr [])]. split; [reflexivity|right; reflexivity].
  - vm_compute in C. discriminate.
Qed.

(** ** The client [__init__] builds *)

Lemma init_client key c :
  GroqClient_init key = inr c ->
  max_retries c = 3 /\
  model c = "llama3-70b-8192" /\
  fallback_model c = "llama3-8b-8192".
Proof.
  unfold GroqClient_init.
  destruct key as [k|]; [|discriminate].
  destruct (_ || _); [discriminate|].
  destruct (negb _); [discriminate|].
  intros H; inversion H; subst; simpl. auto.
Qed.

Lemma sample_client_init : GroqClient_init (Some "gsk_sample") = inr sample_client.
Proof. reflexivity. Qed.

Lemma py_range_3 : py_range 3 = [0; 1; 2].
Proof. reflexivity. Qed.

(** ** Authentication errors *)

(** C1, what the code does instead.  A 401 or 403 answer to one of the
    first two attempts is handled by the generic branch for upstream
    errors: the run backs off and makes a further outbound call. *)
Theorem auth_error_is_retried
    (env : Env) (key : option string) (c : GroqClient) (q : string) (w : World)
    (k : nat) (resp : Response) :
  GroqClient_init key = inr c ->
  (k < 2)%nat ->
  (calls w + k < calls (world_after env c q w))%nat ->
  upstream env (calls w + k) = Responded resp ->
  status_code resp = 401 \/ status_code resp = 403 ->
  (calls w + k + 2 <= calls (world_after env c q w))%nat.
Proof.
  intros Hinit Hk2.
  apply init_client in Hinit as (Hmax & _ & _).
  unfold world_after. rewrite generate_response_eq, Hmax, py_range_3.
  destruct (for_attempts _ _ _) as [res w'] eqn:L.
  intros Hk U Hs.
  assert (Hk' : (calls (record EvTime w) + k < calls w')%nat).
  { rewrite calls_after_clock. destruct res as [e|[a|]]; exact Hk. }
  assert (Goal' : (calls w + k + 2 <= calls w')%nat);
    [|destruct res as [e|[a|]]; exact Goal'].
  destruct (loop_reaches _ _ _ _ k _ _ _ _ L Hk') as (w0 & C0 & L0).
  rewrite calls_after_clock in C0. rewrite <- C0 in U.
  assert (S200 : status_code resp <> 200) by lia.
  assert (S429 : status_code resp <> 429) by lia.
  assert (Next : forall a b rest,
            a < 2 ->
            for_attempts (attempt_body env c q (time_time env (count is_time w)))
              (a :: b :: rest) w0 = (res, w') ->
            (calls w + k + 2 <= calls w')%nat).
  { intros a b rest Ha La.
    rewrite loop_step, (body_other env c q _ a w0 resp U S200 S429), Hmax in La.
    destruct (Z.ltb_spec a (3 - 1)); [|lia].
    rewrite loop_step in La.
    destruct (attempt_body env c q _ b _) as [x w2] eqn:B.
    apply body_sends_once in B as (C2 & _ & _).
    unfold calls, sent in C2. rewrite !count_record in C2; simpl in C2.
    fold (calls w0) in C2. fold (calls w2) in C2.
    assert (Stop : w' = w2 -> (calls w + k + 2 <= calls w')%nat) by (intros ->; lia).
    assert (Go : for_attempts (attempt_body env c q (time_time env (count is_time w)))
                   rest w2 = (res, w') -> (calls w + k + 2 <= calls w')%nat).
    { intros Lr. apply loop_calls_bounds in Lr. lia. }
    destruct x as [e|[| |ans]]; try (apply Go; assumption);
      inversion La; subst; apply Stop; reflexivity. }
  destruct k as [|[|k]]; [| |lia]; simpl in L0.
  - apply (Next 0 1 [2]); [lia|exact L0].
  - apply (Next 1 2 []); [lia|exact L0].
Qed.

Lemma auth_error_is_retried_witness :
  (calls initial_world + 0 + 2
   <= calls (world_after (always (respond 401 error_body)) sample_client "hi" initial_world))%nat.
Proof.
  apply (auth_error_is_retried (always (respond 401 error_body)) (Some "gsk_sample")
           sample_client "hi" initial_world 0
           {| status_code := 401; text := "body"; decoded := Some error_body |}).
  - reflexivity.
  - lia.
  - vm_compute. lia.
  - reflexivity.
  - left. reflexivity.
Defined.

(** ** Rate limiting *)

(** C2, what the code does.  When all three calls of a run are answered with
    429, the run sends the primary model's request, sleeps 2^0 = 1 second,
    sends it again, sleeps 2^1 = 2 seconds, sends the fallback model's
    request and then, the 429 branch having no [raise] of its own, falls out
    of the loop into the generic status-500 "temporarily unavailable"
    [HTTPException]: no rate-limit error is raised. *)
Theorem rate_limited_run
    (env : Env) (key : option string) (c : GroqClient) (q : string) (w : World)
    (r0 r1 r2 : Response) :
  GroqClient_init key = inr c ->
  upstream env (calls w) = Responded r0 -> status_code r0 = 429 ->
  upstream env (calls w + 1) = Responded r1 -> status_code r1 = 429 ->
  upstream env (calls w + 2) = Responded r2 -> status_code r2 = 429 ->
  result_of env c q w =
    inl (HTTPException 500 "Ule Msee is temporarily unavailable after multiple attempts") /\
  events (world_after env c q w) =
    (events w ++
     [ EvTime;
       EvPost (make_request c (model c) q); EvSleep 1;
       EvPost (make_request c (model c) q); EvSleep 2;
       EvPost (make_request c (fallback_model c) q) ])%list.
Proof.
  intros Hinit U0 S0 U1 S1 U2 S2.
  apply init_client in Hinit as (Hmax & _ & _).
  unfold result_of, world_after.
  rewrite generate_response_eq, Hmax, py_range_3.
  set (t0 := time_time env (count is_time w)).
  set (w0 := record EvTime w).
  set (w1 := record (EvSleep (2 ^ 0)) (sent c q 0 w0)).
  set (w2 := record (EvSleep (2 ^ 1)) (sent c q 1 w1)).
  assert (C0 : calls w0 = calls w) by apply calls_after_clock.
  assert (C1 : calls w1 = (calls w + 1)%nat).
  { unfold w1, sent. rewrite !calls_record; simpl. lia. }
  assert (C2 : calls w2 = (calls w + 2)%nat).
  { unfold w2, sent. rewrite !calls_record; simpl. lia. }
  rewrite <- C0 in U0. rewrite <- C1 in U1. rewrite <- C2 in U2.
  assert (B0 : attempt_body env c q t0 0 w0 = (inr Continue, w1)).
  { rewrite (body_429 env c q t0 0 w0 r0 U0 S0), Hmax. reflexivity. }
  assert (B1 : attempt_body env c q t0 1 w1 = (inr Continue, w2)).
  { rewrite (body_429 env c q t0 1 w1 r1 U1 S1), Hmax. reflexivity. }
  assert (B2 : attempt_body env c q t0 2 w2 = (inr FallThrough, sent c q 2 w2)).
  { rewrite (body_429 env c q t0 2 w2 r2 U2 S2), Hmax. reflexivity. }
  rewrite loop_step, B0, loop_step, B1, loop_step, B2.
  cbn [for_attempts ret fst snd].
  split; [reflexivity|].
  unfold w2, w1, w0, sent, record, request_of, model_to_use; simpl.
  rewrite <- !app_assoc. reflexivity.
Qed.

Lemma rate_limited_run_witness :
  result_of (always (respond 429 error_body)) sample_client "hi" initial_world =
    inl (HTTPException 500 "Ule Msee is temporarily unavailable after multiple attempts") /\
  events (world_after (always (respond 429 error_body)) sample_client "hi" initial_world) =
    (events initial_world ++
     [ EvTime;
       EvPost (make_request sample_client (model sample_client) "hi"); EvSleep 1;
       EvPost (make_request sample_client (model sample_client) "hi"); EvSleep 2;
       EvPost (make_request sample_client (fallback_model sample_client) "hi") ])%list.
Proof.
  apply (rate_limited_run (always (respond 429 error_body)) (Some "gsk_sample")
           sample_client "hi" initial_world
           {| status_code := 429; text := "body"; decoded := Some error_body |}
           {| status_code := 429; text := "body"; decoded := Some error_body |}
           {| status_code := 429; text := "body"; decoded := Some error_body |});
    reflexivity.
Defined.

(** ** Model selection *)

(** C6.  For the client [__init__] builds ([max_retries = 3]), the request
    of attempt number [k] of any run of [generate_response] names the
    primary model when [k] is among the first [max_retries - 1] attempts and
    the fallback model on the final attempt; there is no attempt beyond
    [max_retries]. *)
Theorem model_selection
    (env : Env) (key : option string) (c : GroqClient) (q : string) (w : World)
    (k : nat) (req : Request) :
  GroqClient_init key = inr c ->
  nth_error (posts (world_after env c q w)) (calls w + k) = Some req ->
  Z.of_nat k < max_retries c /\
  req = make_request c (model_to_use c (Z.of_nat k)) q /\
  payload_model (body req) =
    (if Z.of_nat k <? max_retries c - 1 then model c else fallback_model c).
Proof.
  intros Hinit Hreq.
  apply init_client in Hinit as (Hmax & _ & _).
  destruct (generate_response_sends env c q w) as (_ & m & Hm & _ & P).
  rewrite P, <- posts_length, nth_error_app2, Nat.add_comm, Nat.add_sub in Hreq by lia.
  rewrite nth_error_map, nth_error_firstn in Hreq.
  destruct (Nat.ltb_spec k m) as [Hk|Hk]; [|discriminate].
  rewrite py_range_nth in Hreq by lia.
  simpl in Hreq. inversion Hreq; subst req; clear Hreq.
  split; [lia|]. split; [reflexivity|].
  unfold request_of, make_request, model_to_use; simpl.
  rewrite Hmax. reflexivity.
Qed.

Lemma model_selection_witness :
  Z.of_nat 2 < max_retries sample_client /\
  make_request sample_client "llama3-8b-8192" "hi" =
    make_request sample_client (model_to_use sample_client (Z.of_nat 2)) "hi" /\
  payload_model (body (make_request sample_client "llama3-8b-8192" "hi")) =
    (if Z.of_nat 2 <? max_retries sample_client - 1
     then model sample_client else fallback_model sample_client).
Proof.
  apply (model_selection (always (respond 500 error_body)) (Some "gsk_sample")
           sample_client "hi" initial_world 2
           (make_request sample_client "llama3-8b-8192" "hi")).
  - reflexivity.
  - reflexivity.
Defined.

(** ** The history log: append and eviction *)

Lemma append_history_room item items :
  Z.of_nat (List.length items) < MAX_HISTORY_ITEMS ->
  append_history item items = (items ++ [item])%list.
Proof.
  intros H. unfold append_history.
  rewrite length_app; simpl.
  destruct (Z.gtb_spec (Z.of_nat (List.length items + 1)) MAX_HISTORY_ITEMS);
    [lia|reflexivity].
Qed.

Lemma append_history_full item items :
  Z.of_nat (List.length items) = MAX_HISTORY_ITEMS ->
  append_history item items = (tl items ++ [item])%list.
Proof.
  intros H. unfold append_history.
  rewrite length_app; simpl.
  destruct (Z.gtb_spec (Z.of_nat (List.length items + 1)) MAX_HISTORY_ITEMS); [|lia].
  destruct items; [discriminate H|reflexivity].
Qed.

Lemma append_history_length item items :
  Z.of_nat (List.length items) <= MAX_HISTORY_ITEMS ->
  Z.of_nat (List.length (append_history item items)) <= MAX_HISTORY_ITEMS.
Proof.
  intros H.
  destruct (Z.eq_dec (Z.of_nat (List.length items)) MAX_HISTORY_ITEMS) as [E|E].
  - rewrite (append_history_full _ _ E), length_app; simpl.
    destruct items; simpl in *; [discriminate E|lia].
  - rewrite append_history_room, length_app by lia; simpl. lia.
Qed.

Lemma append_all_room : forall records log,
  Z.of_nat (List.length log + List.length records) <= MAX_HISTORY_ITEMS ->
  append_all records log = (log ++ records)%list.
Proof.
  induction records as [|r records IH]; intros log H; simpl in *.
  - now rewrite app_nil_r.
  - rewrite append_history_room by lia.
    unfold append_all in IH. rewrite IH.
    + now rewrite <- app_assoc.
    + rewrite length_app; simpl. lia.
Qed.

Lemma append_all_snoc records item log :
  append_all (records ++ [item]) log = append_history item (append_all records log).
Proof. unfold append_all. now rewrite fold_left_app. Qed.

(** Appending one record more than the capacity to the empty log drops the
    first of them and nothing else. *)
Lemma append_all_overflow oldest others :
  Z.of_nat (List.length others) = MAX_HISTORY_ITEMS ->
  append_all (oldest :: others) [] = others.
Proof.
  intros H.
  destruct (exists_last (l := others)) as (front & newest & ->).
  { intros ->. discriminate H. }
  rewrite length_app in H; simpl in H.
  change (oldest :: front ++ [newest])%list with ((oldest :: front) ++ [newest])%list.
  rewrite append_all_snoc, append_all_room by (simpl; lia).
  simpl app. rewrite append_history_full by (simpl; lia).
  reflexivity.
Qed.

(** C7.  On a log holding at most [MAX_HISTORY_ITEMS] records,
    [append_history] puts the record last (newest) and, when that takes the
    count over the capacity, drops exactly the first (oldest-inserted)
    record; the count stays within the capacity.  Hence appending capacity
    plus one records [oldest :: others] to the empty log leaves exactly the
    capacity many records [others]: all but the oldest are present, and the
    oldest, unless it was appended again later, is absent. *)
Theorem history_append_evicts_oldest
    (items : list HistoryItem) (item : HistoryItem)
    (oldest : HistoryItem) (others : list HistoryItem) :
  Z.of_nat (List.length items) <= MAX_HISTORY_ITEMS ->
  Z.of_nat (List.length others) = MAX_HISTORY_ITEMS ->
  ~ In oldest others ->
  append_history item items =
    ((if Z.of_nat (List.length items) <? MAX_HISTORY_ITEMS then items else tl items)
     ++ [item])%list /\
  Z.of_nat (List.length (append_history item items)) <= MAX_HISTORY_ITEMS /\
  append_all (oldest :: others) [] = others /\
  Z.of_nat (List.length (append_all (oldest :: others) [])) = MAX_HISTORY_ITEMS /\
  ~ In oldest (append_all (oldest :: others) []) /\
  (forall r, In r others -> In r (append_all (oldest :: others) [])).
Proof.
  intros Hitems Hothers Hfresh.
  rewrite (append_all_overflow oldest others Hothers).
  repeat split; try assumption.
  - destruct (Z.ltb_spec (Z.of_nat (List.length items)) MAX_HISTORY_ITEMS).
    + now apply append_history_room.
    + apply append_history_full. lia.
  - now apply append_history_length.
  - auto.
Qed.

Lemma sample_item_fresh : ~ In (sample_item 0) (map sample_item (seq 1 1000)).
Proof.
  intros H. apply in_map_iff in H as (n & E & Hn).
  apply in_seq in Hn. inversion E. lia.
Qed.

Lemma history_append_evicts_oldest_witness :
  append_history (sample_item 7) [] =
    ((if Z.of_nat (List.length (@nil HistoryItem)) <? MAX_HISTORY_ITEMS
      then [] else tl []) ++ [sample_item 7])%list /\
  Z.of_nat (List.length (append_history (sample_item 7) [])) <= MAX_HISTORY_ITEMS /\
  append_all (sample_item 0 :: map sample_item (seq 1 1000)) []
    = map sample_item (seq 1 1000) /\
  Z.of_nat (List.length (append_all (sample_item 0 :: map sample_item (seq 1 1000)) []))
    = MAX_HISTORY_ITEMS /\
  ~ In (sample_item 0) (append_all (sample_item 0 :: map sample_item (seq 1 1000)) []) /\
  (forall r, In r (map sample_item (seq 1 1000)) ->
             In r (append_all (sample_item 0 :: map sample_item (seq 1 1000)) [])).
Proof.
  apply (history_append_evicts_oldest [] (sample_item 7) (sample_item 0)
           (map sample_item (seq 1 1000))).
  - simpl. unfold MAX_HISTORY_ITEMS. lia.
  - rewrite length_map, length_seq. reflexivity.
  - exact sample_item_fresh.
Defined.

(** Below the capacity nothing is evicted. *)
Example append_below_capacity :
  append_all [sample_item 0; sample_item 1; sample_item 2] [] =
    [sample_item 0; sample_item 1; sample_item 2].
Proof. reflexivity. Qed.

(** ** The history log and [generate_response] *)

Lemma count_after_uuid p w :
  p EvUuid = false -> count p (record EvUuid w) = count p w.
Proof. intros H. now rewrite count_record, H. Qed.

(** What [ask_question] leaves in the history, by how [generate_response]
    ended. *)
Lemma ask_question_history env c q w :
  history_items (snd (ask_question env c q w)) =
  match generate_response env c q w with
  | (inl _, _) => history_items w
  | (inr answer, w1) => append_history (stored_item env q answer w1) (history_items w)
  end.
Proof.
  pose proof (generate_response_sends env c q w) as (Hh & _).
  unfold world_after in Hh.
  unfold ask_question, try_except, bind.
  destruct (generate_response env c q w) as [[e|[[response_text model_name] t]] w1];
    simpl in *.
  - destruct (is_HTTPException e); simpl; exact Hh.
  - unfold lift.
    rewrite (count_after_uuid is_now) by reflexivity.
    destruct (str_field env response_text) as [e|validated]; simpl.
    + destruct (is_HTTPException e); simpl; now rewrite Hh.
    + now rewrite Hh.
Qed.

Lemma ask_question_raises env c q w e :
  result_of env c q w = inl e ->
  exists status detail,
    fst (ask_question env c q w) = inl (HTTPException status detail).
Proof.
  unfold result_of, ask_question, try_except, bind.
  destruct (generate_response env c q w) as [[e1|a] w1]; simpl; [|discriminate].
  intros _. destruct e1; simpl; eauto.
Qed.

(** C9.  [generate_response] never changes the history log, whatever it
    returns or raises.  [ask_question] leaves the log as it found it when
    [generate_response] raised, and then raises itself; when
    [generate_response] returned an answer, the log is the old one with
    exactly the record of that answer appended (and trimmed to capacity). *)
Theorem history_written_only_on_success
    (env : Env) (c : GroqClient) (q : string) (w : World) :
  history_items (world_after env c q w) = history_items w /\
  history_items (snd (ask_question env c q w)) =
    match result_of env c q w with
    | inl _ => history_items w
    | inr answer =>
        append_history (stored_item env q answer (world_after env c q w)) (history_items w)
    end /\
  match result_of env c q w with
  | inl _ => exists status detail,
               fst (ask_question env c q w) = inl (HTTPException status detail)
  | inr _ => True
  end.
Proof.
  split; [apply generate_response_sends|]. split.
  - rewrite ask_question_history. unfold result_of, world_after.
    destruct (generate_response env c q w) as [[e|a] w1]; reflexivity.
  - destruct (result_of env c q w) as [e|a] eqn:R; [|exact I].
    eapply ask_question_raises; eassumption.
Qed.

(** Runs of [ask_question] after a failed and after a successful
    [generate_response]. *)
Example failed_question_leaves_history :
  history_items (snd (ask_question (always (respond 429 error_body))
                        sample_client "hi" two_records))
  = history_items two_records.
Proof. vm_compute. reflexivity. Qed.

Example answered_question_is_stored :
  map timestamp
    (history_items (snd (ask_question (always (respond 200 answer_body))
                           sample_client "hi" two_records)))
  = ["2024-01-01T10:00:00"; "2024-01-01T11:00:00"; "2024-01-01T00:00:00"].
Proof. vm_compute. reflexivity. Qed.

(** ** The capacity invariant *)

Lemma handle_bounded env call w :
  Z.of_nat (List.length (history_items w)) <= MAX_HISTORY_ITEMS ->
  Z.of_nat (List.length (history_items (handle env call w))) <= MAX_HISTORY_ITEMS.
Proof.
  intros H. destruct call as [c q|limit|item_id|]; simpl.
  - rewrite ask_question_history.
    destruct (generate_response env c q w) as [[e|a] w1]; [exact H|].
    now apply append_history_length.
  - exact H.
  - unfold delete_history_item.
    match goal with |- context [Nat.eqb ?a ?b] => destruct (Nat.eqb a b) end; simpl;
      pose proof (filter_length_le
                    (fun item => negb (String.eqb (id item) item_id)) (history_items w));
      lia.
  - unfold MAX_HISTORY_ITEMS. lia.
Qed.

(** X26.  Whatever calls the service has answered since it started
    (questions, listings, deletions, clearings, in any order and with any
    upstream behaviour), the history holds at most [MAX_HISTORY_ITEMS]
    records. *)
Lemma history_bounded env calls_served :
  Z.of_nat (List.length (history_items (serve env calls_served initial_world)))
  <= MAX_HISTORY_ITEMS.
Proof.
  unfold serve.
  assert (G : forall w, Z.of_nat (List.length (history_items w)) <= MAX_HISTORY_ITEMS ->
            Z.of_nat (List.length (history_items
              (fold_left (fun w call => handle env call w) calls_served w)))
            <= MAX_HISTORY_ITEMS).
  { induction calls_served as [|call rest IH]; intros w H; simpl; [exact H|].
    apply IH. now apply handle_bounded. }
  apply G. unfold MAX_HISTORY_ITEMS. simpl. lia.
Qed.

(** ** Listing the history *)

(** The order on timestamps: Python compares [str] values character by
    character, as [String.compare] does. *)
Lemma string_leb_trans : forall a b c,
  String.leb a b = true -> String.leb b c = true -> String.leb a c = true.
Proof.
  unfold String.leb.
  induction a as [|x a IH]; intros [|y b] [|z c]; simpl; try easy.
  unfold Ascii.compare.
  destruct (N.compare_spec (N_of_ascii x) (N_of_ascii y)) as [Exy|Lxy|Gxy];
    destruct (N.compare_spec (N_of_ascii y) (N_of_ascii z)) as [Eyz|Lyz|Gyz];
    destruct (N.compare_spec (N_of_ascii x) (N_of_ascii z)) as [Exz|Lxz|Gxz];
    try easy; try lia.
  apply IH.
Qed.

Lemma string_ltb_false a b : String.ltb a b = false -> String.leb b a = true.
Proof.
  unfold String.ltb, String.leb.
  rewrite (String.compare_antisym a b).
  destruct (String.compare b a); simpl; easy.
Qed.

Lemma string_ltb_leb a b : String.ltb a b = true -> String.leb a b = true.
Proof.
  unfold String.ltb, String.leb. destruct (String.compare a b); easy.
Qed.

Lemma newer_first_trans a b c : newer_first a b -> newer_first b c -> newer_first a c.
Proof. unfold newer_first. eauto using string_leb_trans. Qed.

Lemma insert_desc_perm x : forall l, Permutation (insert_desc x l) (x :: l).
Proof.
  induction l as [|y l IH]; simpl; [reflexivity|].
  destruct (String.ltb (timestamp x) (timestamp y)); [|reflexivity].
  rewrite IH. apply perm_swap.
Qed.

Lemma sorted_desc_perm : forall l, Permutation (sorted_desc l) l.
Proof.
  induction l as [|x l IH]; simpl; [reflexivity|].
  rewrite insert_desc_perm. now constructor.
Qed.

Lemma insert_desc_sorted x : forall l,
  StronglySorted newer_first l -> StronglySorted newer_first (insert_desc x l).
Proof.
  induction l as [|y l IH]; intros H; simpl.
  - repeat constructor.
  - inversion H as [|? ? Hl Hy]; subst.
    destruct (String.ltb (timestamp x) (timestamp y)) eqn:E.
    + constructor; [now apply IH|].
      apply Forall_forall. intros z Hz.
      apply (Permutation_in _ (insert_desc_perm x l)) in Hz as [<-|Hz].
      * now apply string_ltb_leb.
      * rewrite Forall_forall in Hy. now apply Hy.
    + constructor; [exact H|].
      assert (Hxy : newer_first x y) by now apply string_ltb_false.
      constructor; [exact Hxy|].
      eapply Forall_impl; [|exact Hy].
      intros z Hz. eapply newer_first_trans; eassumption.
Qed.

Lemma sorted_desc_sorted : forall l, StronglySorted newer_first (sorted_desc l).
Proof.
  induction l as [|x l IH]; simpl; [constructor|].
  now apply insert_desc_sorted.
Qed.

Lemma firstn_sorted : forall n l,
  StronglySorted newer_first l -> StronglySorted newer_first (firstn n l).
Proof.
  induction n as [|n IH]; intros [|x l] H; simpl; try constructor.
  - inversion H; subst. now apply IH.
  - inversion H as [|? ? _ Hx]; subst.
    rewrite Forall_forall in *. intros z Hz.
    apply Hx. rewrite <- (firstn_skipn n l). apply in_or_app. now left.
Qed.

Lemma slice_to_sorted l limit :
  StronglySorted newer_first l -> StronglySorted newer_first (slice_to l limit).
Proof. unfold slice_to. destruct (limit <? 0); apply firstn_sorted. Qed.

Lemma slice_to_incl {A : Type} (l : list A) limit x : In x (slice_to l limit) -> In x l.
Proof.
  unfold slice_to. intros H.
  destruct (limit <? 0);
    match type of H with In _ (firstn ?n _) =>
      rewrite <- (firstn_skipn n l); apply in_or_app; now left
    end.
Qed.

(** C8.  For every history and every limit, [get_history] returns records
    of the log sorted by timestamp, most recent first, and leaves the world
    as it was, so that a second call with nothing in between returns the
    same sequence.  For every limit that is a count, that is, not negative,
    the result is the first [limit] records of the whole sorted log, hence
    truncated to at most [limit] entries. *)
Theorem history_listing (limit : Z) (w : World) :
  exists listed,
    get_history limit w = (inr listed, w) /\
    StronglySorted newer_first listed /\
    (forall r, In r listed -> In r (history_items w)) /\
    Permutation (sorted_desc (history_items w)) (history_items w) /\
    get_history limit (snd (get_history limit w)) = get_history limit w /\
    (0 <= limit ->
     listed = firstn (Z.to_nat limit) (sorted_desc (history_items w)) /\
     Z.of_nat (List.length listed) <= limit).
Proof.
  exists (slice_to (sorted_desc (history_items w)) limit).
  split; [reflexivity|].
  split; [apply slice_to_sorted, sorted_desc_sorted|].
  split.
  { intros r Hr. apply slice_to_incl in Hr.
    eapply Permutation_in; [apply sorted_desc_perm|exact Hr]. }
  split; [apply sorted_desc_perm|].
  split; [reflexivity|].
  intros Hlimit. unfold slice_to.
  destruct (Z.ltb_spec limit 0); [lia|].
  split; [reflexivity|].
  pose proof (firstn_le_length (Z.to_nat limit) (sorted_desc (history_items w))). lia.
Qed.

Lemma history_listing_witness :
  fst (get_history 1 two_records) = inr [stamped "2024-01-01T11:00:00"] /\
  Z.of_nat (List.length [stamped "2024-01-01T11:00:00"]) <= 1.
Proof.
  destruct (history_listing 1 two_records) as (listed & G & _ & _ & _ & _ & T).
  destruct T as (E & L); [lia|].
  rewrite G. subst listed. split; [reflexivity|exact L].
Defined.

(** * Further properties of the code *)

(** ** Building the client *)

Lemma init_errors_are_value_errors getenv e :
  GroqClient_init getenv = inl e -> exists msg, e = ValueError msg.
Proof.
  unfold GroqClient_init.
  destruct getenv as [key|]; [|intros H; inversion H; eauto].
  destruct (_ || _); [intros H; inversion H; eauto|].
  destruct (negb _); intros H; inversion H; eauto.
Qed.

(** X1.  [GroqClient.__init__] succeeds exactly when [GROQ_API_KEY] is set
    to a value that starts with [gsk_] (the tests for an empty value and
    for the placeholder never reject such a key); the client then carries
    that key, the Groq base URL, the two model names, a 30 second timeout
    and three attempts. *)
Theorem client_init_accepts_gsk_keys (getenv : option string) (c : GroqClient) :
  GroqClient_init getenv = inr c <->
  exists key,
    getenv = Some key /\
    String.prefix "gsk_" key = true /\
    c = {| api_key := key;
           base_url := "https://api.groq.com/openai/v1";
           model := "llama3-70b-8192";
           fallback_model := "llama3-8b-8192";
           timeout := 30;
           max_retries := 3 |}.
Proof.
  unfold GroqClient_init. split.
  - destruct getenv as [key|]; [|discriminate].
    destruct (_ || _); [discriminate|].
    destruct (String.prefix "gsk_" key) eqn:P; [|discriminate].
    simpl. intros H; inversion H. exists key. auto.
  - intros (key & -> & P & ->).
    destruct (String.eqb_spec key EmptyString) as [->|_]; [discriminate P|].
    destruct (String.eqb_spec key "your_groq_api_key_here") as [->|_]; [discriminate P|].
    simpl. rewrite P. reflexivity.
Qed.

(** X2.  Every failure of [GroqClient.__init__] is a [ValueError]: with the
    "not set or placeholder" message exactly when the variable is unset,
    empty or the placeholder text, and with the "Invalid format" message
    exactly when it holds some other text that does not start with [gsk_]. *)
Theorem client_init_rejections (getenv : option string) :
  (GroqClient_init getenv =
     inl (ValueError
            "GROQ_API_KEY environment variable is not set or is using placeholder value")
   <-> getenv = None \/ getenv = Some EmptyString
       \/ getenv = Some "your_groq_api_key_here") /\
  (GroqClient_init getenv =
     inl (ValueError "Invalid GROQ_API_KEY format (should start with 'gsk_')")
   <-> exists key, getenv = Some key /\ key <> EmptyString /\
                   key <> "your_groq_api_key_here" /\
                   String.prefix "gsk_" key = false) /\
  (forall e, GroqClient_init getenv = inl e -> exists msg, e = ValueError msg).
Proof.
  unfold GroqClient_init.
  destruct getenv as [key|].
  - destruct (String.eqb_spec key EmptyString) as [->|NE]; simpl.
    { repeat split; try discriminate; eauto.
      - intros (k & E & N & _). inversion E; subst. contradiction.
      - intros e H; inversion H; eauto. }
    destruct (String.eqb_spec key "your_groq_api_key_here") as [->|NP]; simpl.
    { repeat split; try discriminate; eauto.
      - intros (k & E & _ & N & _). inversion E; subst. contradiction.
      - intros e H; inversion H; eauto. }
    destruct (String.prefix "gsk_" key) eqn:P; simpl.
    + repeat split; try discriminate.
      * intros [H|[H|H]]; inversion H; subst; contradiction.
      * intros (k & E & _ & _ & N). inversion E; subst. congruence.
    + repeat split; try discriminate; eauto.
      * intros [H|[H|H]]; inversion H; subst; contradiction.
      * intros e H; inversion H; eauto.
  - repeat split; try discriminate; eauto.
    + intros (k & E & _). discriminate.
    + intros e H; inversion H; eauto.
Qed.

(** ** The shared client *)

Lemma init_of_gsk_key key :
  String.prefix "gsk_" key = true ->
  exists c, GroqClient_init (Some key) = inr c /\ api_key c = key.
Proof.
  intros P. unfold GroqClient_init.
  destruct (String.eqb_spec key EmptyString) as [->|_]; [discriminate P|].
  destruct (String.eqb_spec key "your_groq_api_key_here") as [->|_]; [discriminate P|].
  simpl. rewrite P. simpl. eauto.
Qed.

(** X3.  Once [get_groq_client] has returned a client, the application
    state holds it and every later call returns that same client and
    leaves the state alone, whatever [GROQ_API_KEY] has become since. *)
Theorem get_groq_client_keeps_client
    (getenv later : option string) (st st' : AppState) (c : GroqClient) :
  get_groq_client getenv st = (inr c, st') ->
  groq_client st' = Some c /\
  get_groq_client later st' = (inr c, st').
Proof.
  unfold get_groq_client.
  destruct (groq_client st) as [c0|] eqn:G.
  - intros H; inversion H; subst. rewrite G. auto.
  - destruct (GroqClient_init getenv) as [e|c1] eqn:I.
    + destruct e; discriminate.
    + intros H; inversion H; subst. simpl. auto.
Qed.

Lemma get_groq_client_keeps_client_witness :
  groq_client (set_groq_client sample_state sample_client) = Some sample_client /\
  get_groq_client None (set_groq_client sample_state sample_client)
    = (inr sample_client, set_groq_client sample_state sample_client).
Proof.
  apply (get_groq_client_keeps_client (Some "gsk_sample") None sample_state
           (set_groq_client sample_state sample_client) sample_client).
  reflexivity.
Defined.

(** X4.  When [get_groq_client] fails, no client was held, the state is
    left as it was, and the error is an [HTTPException] with status 500
    whose detail is the message of the constructor's [ValueError]; the
    failure is not remembered: a later call made once the variable holds a
    [gsk_] key succeeds. *)
Theorem get_groq_client_failure
    (getenv : option string) (st st' : AppState) (e : Exn) :
  get_groq_client getenv st = (inl e, st') ->
  st' = st /\
  groq_client st = None /\
  (exists msg, e = HTTPException 500 msg /\
               GroqClient_init getenv = inl (ValueError msg)) /\
  (forall key, String.prefix "gsk_" key = true ->
     exists c, fst (get_groq_client (Some key) st') = inr c /\ api_key c = key).
Proof.
  unfold get_groq_client.
  destruct (groq_client st) as [c0|] eqn:G; [discriminate|].
  destruct (GroqClient_init getenv) as [e0|c1] eqn:I; [|discriminate].
  destruct (init_errors_are_value_errors _ _ I) as (msg & ->).
  intros H; inversion H; subst.
  repeat split; eauto.
  intros key P. rewrite G.
  destruct (init_of_gsk_key key P) as (c & -> & K). simpl. eauto.
Qed.

Lemma get_groq_client_failure_witness :
  sample_state = sample_state /\
  groq_client sample_state = None /\
  (exists msg,
     HTTPException 500 "Invalid GROQ_API_KEY format (should start with 'gsk_')"
       = HTTPException 500 msg /\
     GroqClient_init (Some "sk-other") = inl (ValueError msg)) /\
  (forall key, String.prefix "gsk_" key = true ->
     exists c, fst (get_groq_client (Some key) sample_state) = inr c /\ api_key c = key).
Proof.
  apply (get_groq_client_failure (Some "sk-other") sample_state sample_state
           (HTTPException 500 "Invalid GROQ_API_KEY format (should start with 'gsk_')")).
  reflexivity.
Defined.

(** X5.  [health_check] reports the client as available, and the service as
    "healthy" rather than "degraded", exactly when [get_groq_client] would
    hand out a client in the same state and environment; the uptime is the
    clock reading less the startup time. *)
Theorem health_check_agrees_with_client
    (getenv : option string) (now_seconds : Q) (stamp : string) (st : AppState) :
  (groq_available (health_check getenv now_seconds stamp st) = true <->
   exists c, fst (get_groq_client getenv st) = inr c) /\
  health_status (health_check getenv now_seconds stamp st) =
    (if groq_available (health_check getenv now_seconds stamp st)
     then "healthy" else "degraded") /\
  uptime_seconds (health_check getenv now_seconds stamp st)
    = (now_seconds - startup_time st)%Q.
Proof.
  unfold health_check, get_groq_client; simpl.
  repeat split.
  - destruct (groq_client st) as [held|]; [intros _; exists held; reflexivity|].
    destruct (GroqClient_init getenv) as [e|built]; [discriminate|].
    intros _; exists built; reflexivity.
  - destruct (groq_client st) as [held|]; [reflexivity|].
    destruct (GroqClient_init getenv) as [e|built] eqn:I; [|reflexivity].
    destruct (init_errors_are_value_errors _ _ I) as (msg & ->).
    simpl. intros (c1 & H). discriminate.
Qed.

(** X6.  After the startup half of [lifespan] the state holds a client
    exactly when the constructor accepts the environment's key; a rejected
    key is swallowed, and the first [get_groq_client] then repeats the
    attempt and gives the same verdict as the constructor. *)
Theorem lifespan_startup_client (getenv : option string) (st : AppState) :
  groq_client st = None ->
  (groq_client (lifespan_startup getenv st) =
     match GroqClient_init getenv with
     | inr c => Some c
     | inl _ => None
     end) /\
  (forall c, GroqClient_init getenv = inr c ->
     forall later, fst (get_groq_client later (lifespan_startup getenv st)) = inr c) /\
  (forall msg, GroqClient_init getenv = inl (ValueError msg) ->
     get_groq_client getenv (lifespan_startup getenv st)
       = (inl (HTTPException 500 msg), st)).
Proof.
  intros G. unfold lifespan_startup, get_groq_client.
  destruct (GroqClient_init getenv) as [e|c] eqn:I; simpl.
  - repeat split; [assumption|discriminate|].
    intros msg H; inversion H; subst. rewrite G. reflexivity.
  - repeat split; [|discriminate].
    intros c0 H later; inversion H; subst. reflexivity.
Qed.

Lemma lifespan_startup_client_witness :
  (groq_client (lifespan_startup (Some "gsk_sample") sample_state) =
     match GroqClient_init (Some "gsk_sample") with
     | inr c => Some c
     | inl _ => None
     end) /\
  (forall c, GroqClient_init (Some "gsk_sample") = inr c ->
     forall later,
       fst (get_groq_client later (lifespan_startup (Some "gsk_sample") sample_state))
       = inr c) /\
  (forall msg, GroqClient_init (Some "gsk_sample") = inl (ValueError msg) ->
     get_groq_client (Some "gsk_sample") (lifespan_startup (Some "gsk_sample") sample_state)
       = (inl (HTTPException 500 msg), sample_state)).
Proof.
  apply (lifespan_startup_client (Some "gsk_sample") sample_state).
  reflexivity.
Defined.

(** ** Validating the question *)

Section ValidationFacts.

Variable Char : Type.
Variable isspace : Char -> bool.

Local Abbreviation blank := (Forall (fun ch => isspace ch = true)).
Local Abbreviation lstrip' := (lstrip Char isspace).
Local Abbreviation rstrip' := (rstrip Char isspace).
Local Abbreviation strip' := (strip Char isspace).

Lemma lstrip_split : forall s, exists pre, s = (pre ++ lstrip' s)%list /\ blank pre.
Proof.
  induction s as [|ch s (pre & E & B)]; simpl.
  - exists []. split; [reflexivity|constructor].
  - destruct (isspace ch) eqn:W.
    + exists (ch :: pre). simpl. split; [now rewrite <- E|now constructor].
    + exists []. split; [reflexivity|constructor].
Qed.

Lemma lstrip_head : forall s ch rest, lstrip' s = ch :: rest -> isspace ch = false.
Proof.
  induction s as [|a s IH]; simpl; intros ch rest H; [discriminate|].
  destruct (isspace a) eqn:W; [eauto|].
  inversion H; subst. exact W.
Qed.

Lemma lstrip_nil_iff : forall s, lstrip' s = [] <-> blank s.
Proof.
  induction s as [|a s IH]; simpl.
  - split; [constructor|reflexivity].
  - destruct (isspace a) eqn:W.
    + rewrite IH. split; [now constructor|].
      intros H; inversion H; assumption.
    + split; [discriminate|].
      intros H; inversion H; congruence.
Qed.

Lemma lstrip_snoc : forall s ch,
  isspace ch = false -> lstrip' (s ++ [ch]) = (lstrip' s ++ [ch])%list.
Proof.
  induction s as [|a s IH]; simpl; intros ch W.
  - now rewrite W.
  - destruct (isspace a); [now apply IH|reflexivity].
Qed.

Lemma lstrip_idempotent s : lstrip' (lstrip' s) = lstrip' s.
Proof.
  destruct (lstrip' s) as [|ch rest] eqn:E; [reflexivity|].
  simpl. now rewrite (lstrip_head _ _ _ E).
Qed.

Lemma rstrip_cons ch s :
  isspace ch = false -> rstrip' (ch :: s) = ch :: rstrip' s.
Proof.
  intros W. unfold rstrip; simpl.
  rewrite lstrip_snoc by assumption.
  now rewrite rev_app_distr.
Qed.

Lemma rstrip_split s : exists post, s = (rstrip' s ++ post)%list /\ blank post.
Proof.
  destruct (lstrip_split (rev s)) as (pre & E & B).
  exists (rev pre). split.
  - unfold rstrip. rewrite <- rev_app_distr, <- E. now rewrite rev_involutive.
  - now apply Forall_rev.
Qed.

Lemma rstrip_last s front ch :
  rstrip' s = (front ++ [ch])%list -> isspace ch = false.
Proof.
  unfold rstrip. intros H.
  apply (f_equal (@rev Char)) in H.
  rewrite rev_involutive, rev_app_distr in H. simpl in H.
  eapply lstrip_head; eassumption.
Qed.

Lemma rstrip_idempotent s : rstrip' (rstrip' s) = rstrip' s.
Proof. unfold rstrip. now rewrite rev_involutive, lstrip_idempotent. Qed.

Lemma strip_nil_iff s : strip' s = [] <-> blank s.
Proof.
  unfold strip. rewrite <- lstrip_nil_iff.
  destruct (lstrip' s) as [|ch rest] eqn:E.
  - split; reflexivity.
  - rewrite (rstrip_cons _ _ (lstrip_head _ _ _ E)). split; discriminate.
Qed.

Lemma strip_idempotent s : strip' (strip' s) = strip' s.
Proof.
  unfold strip.
  destruct (lstrip' s) as [|ch rest] eqn:E; [reflexivity|].
  pose proof (lstrip_head _ _ _ E) as W.
  rewrite (rstrip_cons _ _ W). simpl. rewrite W.
  rewrite <- (rstrip_cons _ _ W). apply rstrip_idempotent.
Qed.

(** X7.  [validate_question] raises, always the same [ValueError], exactly
    when the text consists of whitespace only, the empty text included. *)
Theorem validate_question_rejects_blank (v : list Char) :
  (validate_question Char isspace v =
     inl (ValueError "Question cannot be empty or just whitespace")
   <-> blank v) /\
  (forall e, validate_question Char isspace v = inl e ->
     e = ValueError "Question cannot be empty or just whitespace").
Proof.
  unfold validate_question. rewrite <- strip_nil_iff.
  destruct (strip' v) as [|ch rest].
  - repeat split. intros e H; inversion H; reflexivity.
  - repeat split; discriminate.
Qed.

(** X8.  When [validate_question] accepts a text it returns it with the
    surrounding whitespace removed and nothing else changed: the input is
    whitespace, then the result, then whitespace; the result is not empty,
    neither starts nor ends with whitespace, is no longer than the input,
    and validating it again returns it unchanged. *)
Theorem validate_question_strips (v s : list Char) :
  validate_question Char isspace v = inr s ->
  s <> [] /\
  (exists pre post, v = (pre ++ s ++ post)%list /\ blank pre /\ blank post) /\
  (forall ch rest, s = ch :: rest -> isspace ch = false) /\
  (forall front ch, s = (front ++ [ch])%list -> isspace ch = false) /\
  (List.length s <= List.length v)%nat /\
  validate_question Char isspace s = inr s.
Proof.
  unfold validate_question.
  destruct (strip' v) as [|c0 r0] eqn:E; [discriminate|].
  intros H; inversion H; subst s; clear H. rewrite <- E.
  destruct (lstrip_split v) as (pre & Ev & Bpre).
  destruct (rstrip_split (lstrip' v)) as (post & El & Bpost).
  fold (strip' v) in El.
  assert (D : v = (pre ++ strip' v ++ post)%list) by now rewrite <- El.
  split; [rewrite E; discriminate|].
  split; [exists pre, post; auto|].
  split.
  { intros ch rest Hs. unfold strip in Hs.
    destruct (lstrip' v) as [|a u] eqn:L; [discriminate Hs|].
    pose proof (lstrip_head _ _ _ L) as W.
    rewrite (rstrip_cons _ _ W) in Hs. inversion Hs; subst. exact W. }
  split; [intros front ch Hs; eapply rstrip_last; exact Hs|].
  split.
  { rewrite D at 2. rewrite !length_app. lia. }
  rewrite strip_idempotent, E. reflexivity.
Qed.

End ValidationFacts.

Lemma validate_question_strips_witness :
  list_ascii_of_string "why?" <> [] /\
  (exists pre post,
     list_ascii_of_string "  why? " = (pre ++ list_ascii_of_string "why?" ++ post)%list /\
     Forall (fun ch => ascii_isspace ch = true) pre /\
     Forall (fun ch => ascii_isspace ch = true) post) /\
  (forall ch rest, list_ascii_of_string "why?" = ch :: rest -> ascii_isspace ch = false) /\
  (forall front ch, list_ascii_of_string "why?" = (front ++ [ch])%list ->
     ascii_isspace ch = false) /\
  (List.length (list_ascii_of_string "why?")
   <= List.length (list_ascii_of_string "  why? "))%nat /\
  validate_question ascii ascii_isspace (list_ascii_of_string "why?")
    = inr (list_ascii_of_string "why?").
Proof.
  apply (validate_question_strips ascii ascii_isspace
           (list_ascii_of_string "  why? ") (list_ascii_of_string "why?")).
  reflexivity.
Defined.

(** ** Retried attempts *)

Lemma py_range_split (n : Z) (k : nat) :
  Z.of_nat k <= n ->
  py_range n = (py_range (Z.of_nat k) ++ map Z.of_nat (seq k (Z.to_nat n - k)))%list.
Proof.
  intros H. unfold py_range. rewrite Nat2Z.id, <- map_app.
  replace (Z.to_nat n) with (k + (Z.to_nat n - k))%nat at 1 by lia.
  now rewrite seq_app.
Qed.

Lemma total_app l1 l2 : total (l1 ++ l2) = total l1 + total l2.
Proof. unfold total. induction l1 as [|x l1 IH]; simpl; lia. Qed.

Lemma total_pow_nonneg attempts : 0 <= total (map (fun a => 2 ^ a) attempts).
Proof.
  induction attempts as [|a l IH]; simpl; [lia|].
  pose proof (Z.pow_nonneg 2 a). lia.
Qed.

Lemma total_pow_range (n : nat) :
  total (map (fun a => 2 ^ a) (py_range (Z.of_nat n))) = 2 ^ Z.of_nat n - 1.
Proof.
  induction n as [|n IH]; [reflexivity|].
  rewrite py_range_last by lia.
  replace (Z.of_nat (S n) - 1) with (Z.of_nat n) by lia.
  rewrite map_app, total_app, IH.
  change (total (map (fun a => 2 ^ a) [Z.of_nat n])) with (2 ^ Z.of_nat n + 0).
  rewrite Nat2Z.inj_succ, Z.pow_succ_r by lia. lia.
Qed.

Section Retries.

Variable env : Env.
Variable c : GroqClient.
Variable q : string.
Variable start_time : Q.

Local Abbreviation body := (attempt_body env c q start_time).
Local Abbreviation loop := (for_attempts body).

(** An early attempt that meets a retryable outcome backs off as that
    outcome demands and continues. *)
Lemma early_retry attempt w :
  attempt < max_retries c - 1 ->
  retryable (upstream env (calls w)) ->
  exists w',
    body attempt w = (inr Continue, w') /\
    calls w' = S (calls w) /\
    count is_time w' = count is_time w /\
    history_items w' = history_items w /\
    sleeps w' = (sleeps w ++ backoff (upstream env (calls w)) attempt)%list.
Proof.
  intros Early R.
  apply Z.ltb_lt in Early.
  destruct (upstream env (calls w)) as [resp| |] eqn:U; simpl in R |- *.
  - destruct (Z.eq_dec (status_code resp) 429) as [S429|S429].
    + rewrite (body_429 env c q start_time attempt w resp U S429), Early.
      eexists. split; [reflexivity|].
      unfold sent. rewrite !calls_record, !count_record, !sleeps_record; simpl.
      now rewrite app_nil_r.
    + rewrite (body_other env c q start_time attempt w resp U R S429), Early.
      eexists. split; [reflexivity|].
      unfold sent. rewrite !calls_record, !count_record, !sleeps_record; simpl.
      now rewrite app_nil_r.
  - rewrite (body_timed_out env c q start_time attempt w U), Early.
    eexists. split; [reflexivity|].
    unfold sent. rewrite !calls_record, !count_record, !sleeps_record; simpl.
    now rewrite app_nil_r.
  - rewrite (body_request_failed env c q start_time attempt w U), Early.
    eexists. split; [reflexivity|].
    unfold sent. rewrite !calls_record, !count_record, !sleeps_record; simpl.
    now rewrite app_nil_r.
Qed.

(** A run of early attempts that all meet retryable outcomes brings the
    loop to the attempt after them. *)
Lemma loop_retries : forall init rest w,
  Forall (fun a => a < max_retries c - 1) init ->
  (forall j, (j < List.length init)%nat -> retryable (upstream env (calls w + j))) ->
  exists w',
    loop (init ++ rest) w = loop rest w' /\
    calls w' = (calls w + List.length init)%nat /\
    count is_time w' = count is_time w /\
    history_items w' = history_items w /\
    sleeps w' = (sleeps w ++ backoffs env (calls w) init)%list.
Proof.
  induction init as [|a init IH]; intros rest w Hinit Hup.
  - exists w. simpl. rewrite app_nil_r, Nat.add_0_r. auto.
  - inversion Hinit as [|? ? Ha Hrest]; subst.
    destruct (early_retry a w Ha) as (w1 & B & C1 & T1 & H1 & S1).
    { specialize (Hup 0%nat). rewrite Nat.add_0_r in Hup. apply Hup. simpl; lia. }
    destruct (IH rest w1 Hrest) as (w' & L & C & T & H & S).
    { intros j Hj. rewrite C1.
      replace (S (calls w) + j)%nat with (calls w + S j)%nat by lia.
      apply Hup. simpl; lia. }
    exists w'. cbn [app List.length backoffs].
    rewrite loop_step, B.
    repeat split; [exact L|lia|congruence|congruence|].
    rewrite S, S1, C1, <- app_assoc. reflexivity.
Qed.

Lemma backoffs_timed_out : forall attempts n,
  (forall j, (j < List.length attempts)%nat -> upstream env (n + j) = TimedOut) ->
  backoffs env n attempts = [].
Proof.
  induction attempts as [|a l IH]; intros n H; simpl; [reflexivity|].
  rewrite <- (Nat.add_0_r n) at 1. rewrite (H 0%nat) by (simpl; lia). simpl.
  apply IH. intros j Hj.
  replace (S n + j)%nat with (n + S j)%nat by lia. apply H. simpl; lia.
Qed.

Lemma backoffs_request_failed : forall attempts n,
  (forall j, (j < List.length attempts)%nat -> upstream env (n + j) = RequestFailed) ->
  backoffs env n attempts = map (fun a => 2 ^ a) attempts.
Proof.
  induction attempts as [|a l IH]; intros n H; simpl; [reflexivity|].
  rewrite <- (Nat.add_0_r n) at 1. rewrite (H 0%nat) by (simpl; lia). simpl.
  f_equal. apply IH. intros j Hj.
  replace (S n + j)%nat with (n + S j)%nat by lia. apply H. simpl; lia.
Qed.

Lemma backoffs_length : forall attempts n,
  (List.length (backoffs env n attempts) <= List.length attempts)%nat.
Proof.
  induction attempts as [|a l IH]; intros n; simpl; [lia|].
  rewrite length_app. specialize (IH (S n)).
  destruct (upstream env n); simpl; lia.
Qed.

End Retries.

(** ** Timeouts, network failures and late successes *)

Lemma range_is_early (n : Z) : Forall (fun a => a < n) (py_range n).
Proof. eapply Forall_impl; [|apply py_range_bound]. simpl; intros; lia. Qed.

(** X9.  If every attempt of [generate_response] times out, the run makes
    exactly [max_retries] outbound calls, never sleeps between them, and
    raises the status-504 [HTTPException]. *)
Theorem persistent_timeouts
    (env : Env) (c : GroqClient) (q : string) (w : World) :
  1 <= max_retries c ->
  (forall k, (k < Z.to_nat (max_retries c))%nat ->
     upstream env (calls w + k) = TimedOut) ->
  result_of env c q w =
    inl (HTTPException 504 "Ule Msee is taking too long to respond. Please try again.") /\
  calls (world_after env c q w) = (calls w + Z.to_nat (max_retries c))%nat /\
  sleeps (world_after env c q w) = sleeps w.
Proof.
  intros Hmax Hup.
  unfold result_of, world_after.
  rewrite generate_response_eq, (py_range_last _ Hmax).
  set (t0 := time_time env (count is_time w)).
  destruct (loop_retries env c q t0 (py_range (max_retries c - 1)) [max_retries c - 1]
              (record EvTime w) (range_is_early _))
    as (w' & L & C & _ & _ & S).
  { intros j Hj. rewrite py_range_length in Hj. rewrite calls_after_clock, Hup by lia.
    exact I. }
  rewrite py_range_length, calls_after_clock in C.
  rewrite calls_after_clock, backoffs_timed_out, app_nil_r, sleeps_record, app_nil_r in S.
  2:{ intros j Hj. rewrite py_range_length in Hj. apply Hup. lia. }
  rewrite L, loop_step.
  rewrite (body_timed_out env c q t0 (max_retries c - 1) w').
  2:{ rewrite C. apply Hup. lia. }
  rewrite Z.ltb_irrefl. simpl.
  unfold sent. rewrite calls_record, sleeps_record, app_nil_r; simpl.
  repeat split; [lia|exact S].
Qed.

Lemma persistent_timeouts_witness :
  result_of (always TimedOut) sample_client "hi" initial_world =
    inl (HTTPException 504 "Ule Msee is taking too long to respond. Please try again.") /\
  calls (world_after (always TimedOut) sample_client "hi" initial_world)
    = (calls initial_world + Z.to_nat (max_retries sample_client))%nat /\
  sleeps (world_after (always TimedOut) sample_client "hi" initial_world)
    = sleeps initial_world.
Proof.
  apply (persistent_timeouts (always TimedOut) sample_client "hi" initial_world).
  - simpl. lia.
  - intros k Hk. reflexivity.
Defined.

(** X10.  If every attempt of [generate_response] fails at the network
    level, the run makes exactly [max_retries] outbound calls, sleeping
    [2 ** attempt] seconds after each but the last (1 s, then 2 s, ...), and
    raises the status-503 [HTTPException]. *)
Theorem persistent_network_failures
    (env : Env) (c : GroqClient) (q : string) (w : World) :
  1 <= max_retries c ->
  (forall k, (k < Z.to_nat (max_retries c))%nat ->
     upstream env (calls w + k) = RequestFailed) ->
  result_of env c q w =
    inl (HTTPException 503 "Unable to connect to Ule Msee's AI service") /\
  calls (world_after env c q w) = (calls w + Z.to_nat (max_retries c))%nat /\
  sleeps (world_after env c q w) =
    (sleeps w ++ map (fun a => 2 ^ a) (py_range (max_retries c - 1)))%list.
Proof.
  intros Hmax Hup.
  unfold result_of, world_after.
  rewrite generate_response_eq, (py_range_last _ Hmax).
  set (t0 := time_time env (count is_time w)).
  destruct (loop_retries env c q t0 (py_range (max_retries c - 1)) [max_retries c - 1]
              (record EvTime w) (range_is_early _))
    as (w' & L & C & _ & _ & S).
  { intros j Hj. rewrite py_range_length in Hj. rewrite calls_after_clock, Hup by lia.
    exact I. }
  rewrite py_range_length, calls_after_clock in C.
  rewrite calls_after_clock, backoffs_request_failed, sleeps_record, app_nil_r in S.
  2:{ intros j Hj. rewrite py_range_length in Hj. apply Hup. lia. }
  rewrite L, loop_step.
  rewrite (body_request_failed env c q t0 (max_retries c - 1) w').
  2:{ rewrite C. apply Hup. lia. }
  rewrite Z.ltb_irrefl. simpl.
  unfold sent. rewrite calls_record, sleeps_record, app_nil_r; simpl.
  repeat split; [lia|exact S].
Qed.

Lemma persistent_network_failures_witness :
  result_of (always RequestFailed) sample_client "hi" initial_world =
    inl (HTTPException 503 "Unable to connect to Ule Msee's AI service") /\
  calls (world_after (always RequestFailed) sample_client "hi" initial_world)
    = (calls initial_world + Z.to_nat (max_retries sample_client))%nat /\
  sleeps (world_after (always RequestFailed) sample_client "hi" initial_world) =
    (sleeps initial_world
     ++ map (fun a => 2 ^ a) (py_range (max_retries sample_client - 1)))%list.
Proof.
  apply (persistent_network_failures (always RequestFailed) sample_client "hi"
           initial_world).
  - simpl. lia.
  - intros k Hk. reflexivity.
Defined.

(** X11.  If the first [k] calls of a run meet outcomes the loop retries
    (a response with a status other than 200, a timeout or a network
    failure), [k] is below [max_retries], and call number [k] is answered
    with status 200 and a body that has a first choice, then
    [generate_response] returns that choice's content, the model chosen for
    attempt [k] and the time elapsed since the start of the run, after
    exactly [k + 1] outbound calls and the backoff sleeps of the [k] failed
    attempts. *)
Theorem success_after_retries
    (env : Env) (c : GroqClient) (q : string) (w : World)
    (k : nat) (resp : Response) (ai_response : JSON) :
  Z.of_nat k < max_retries c ->
  (forall j, (j < k)%nat -> retryable (upstream env (calls w + j))) ->
  upstream env (calls w + k) = Responded resp ->
  status_code resp = 200 ->
  has_choice resp ai_response ->
  result_of env c q w =
    inr (ai_response, model_to_use c (Z.of_nat k),
         (time_time env (S (count is_time w)) - time_time env (count is_time w))%Q) /\
  calls (world_after env c q w) = (calls w + k + 1)%nat /\
  sleeps (world_after env c q w) =
    (sleeps w ++ backoffs env (calls w) (py_range (Z.of_nat k)))%list.
Proof.
  intros Hk Hup U S200 Hc.
  unfold result_of, world_after.
  rewrite generate_response_eq, (py_range_split (max_retries c) k) by lia.
  set (t0 := time_time env (count is_time w)).
  destruct (loop_retries env c q t0 (py_range (Z.of_nat k))
              (map Z.of_nat (seq k (Z.to_nat (max_retries c) - k)))
              (record EvTime w))
    as (w' & L & C & T & _ & Sl).
  { eapply Forall_impl; [|apply py_range_bound]. simpl; intros; lia. }
  { intros j Hj. rewrite py_range_length, Nat2Z.id in Hj.
    rewrite calls_after_clock. now apply Hup. }
  rewrite py_range_length, Nat2Z.id, calls_after_clock in C.
  rewrite calls_after_clock, sleeps_record, app_nil_r in Sl.
  rewrite count_record in T; simpl in T.
  replace (Z.to_nat (max_retries c) - k)%nat
    with (S (Z.to_nat (max_retries c) - k - 1)) in L |- * by lia.
  cbn [seq map] in L |- *.
  rewrite L, loop_step.
  rewrite <- C in U.
  rewrite (body_200 env c q t0 (Z.of_nat k) w' resp U S200), (completion_of_choice _ _ Hc).
  unfold sent. rewrite count_record; simpl. rewrite T.
  rewrite calls_record, calls_record, sleeps_record, sleeps_record, !app_nil_r; simpl.
  repeat split; [lia|exact Sl].
Qed.

(** A first-attempt 429 followed by a 200: one backoff of one second, and
    the answer comes from the primary model, which attempt 2 still uses. *)
Lemma success_after_retries_witness :
  result_of (first_then 1 (respond 429 error_body) (respond 200 answer_body))
      sample_client "hi" initial_world =
    inr (JStr "answer", model_to_use sample_client (Z.of_nat 1),
         (steady_clock (S (count is_time initial_world))
          - steady_clock (count is_time initial_world))%Q) /\
  calls (world_after (first_then 1 (respond 429 error_body) (respond 200 answer_body))
           sample_client "hi" initial_world)
    = (calls initial_world + 1 + 1)%nat /\
  sleeps (world_after (first_then 1 (respond 429 error_body) (respond 200 answer_body))
            sample_client "hi" initial_world) =
    (sleeps initial_world
     ++ backoffs (first_then 1 (respond 429 error_body) (respond 200 answer_body))
          (calls initial_world) (py_range (Z.of_nat 1)))%list.
Proof.
  apply (success_after_retries
           (first_then 1 (respond 429 error_body) (respond 200 answer_body))
           sample_client "hi" initial_world 1
           {| status_code := 200; text := "body"; decoded := Some answer_body |}
           (JStr "answer")).
  - simpl. lia.
  - intros j Hj. replace j with 0%nat by lia. simpl. lia.
  - reflexivity.
  - reflexivity.
  - unfold has_choice. do 4 eexists. repeat split; reflexivity.
Defined.

Example rate_limited_then_answered :
  sleeps (world_after (first_then 1 (respond 429 error_body) (respond 200 answer_body))
            sample_client "hi" initial_world) = [1] /\
  model_to_use sample_client 1 = "llama3-70b-8192".
Proof. split; reflexivity. Qed.

(** ** What a run raises, sends and waits for *)

Section Runs.

Variable env : Env.
Variable c : GroqClient.
Variable q : string.

Local Abbreviation kinds :=
  (fun e => is_HTTPException e = true \/ e = JSONDecodeError \/ is_lookup_error e = true).




(** How an attempt changes the list of sleeps: not at all, or by its own
    backoff when it is early and continues. *)
Lemma body_sleeps t0 attempt w x w' :
  attempt_body env c q t0 attempt w = (x, w') ->
  sleeps w' = sleeps w \/
  (attempt < max_retries c - 1 /\ x = inr Continue /\
   sleeps w' = (sleeps w ++ [2 ^ attempt])%list).
Proof.
  assert (Same : forall v, sleeps (sent c q attempt v) = sleeps v).
  { intros v. unfold sent. now rewrite sleeps_record, app_nil_r. }
  assert (Time : forall v, sleeps (record EvTime v) = sleeps v).
  { intros v. now rewrite sleeps_record, app_nil_r. }
  assert (Slept : forall v, sleeps (record (EvSleep (2 ^ attempt)) (sent c q attempt v))
                            = (sleeps v ++ [2 ^ attempt])%list).
  { intros v. now rewrite sleeps_record, Same. }
  destruct (upstream env (calls w)) as [resp| |] eqn:U.
  - destruct (Z.eq_dec (status_code resp) 200) as [S200|S200].
    + rewrite (body_200 env c q t0 attempt w resp U S200).
      destruct (completion_of resp); intros Hb; inversion Hb; subst; left;
        now rewrite ?Time, Same.
    + destruct (Z.eq_dec (status_code resp) 429) as [S429|S429].
      * rewrite (body_429 env c q t0 attempt w resp U S429).
        destruct (Z.ltb_spec attempt (max_retries c - 1));
          intros Hb; inversion Hb; subst; [right|left]; auto.
      * rewrite (body_other env c q t0 attempt w resp U S200 S429).
        destruct (Z.ltb_spec attempt (max_retries c - 1));
          intros Hb; inversion Hb; subst; [right|left]; auto.
  - rewrite (body_timed_out env c q t0 attempt w U).
    destruct (attempt <? max_retries c - 1); intros Hb; inversion Hb; subst; left; auto.
  - rewrite (body_request_failed env c q t0 attempt w U).
    destruct (Z.ltb_spec attempt (max_retries c - 1));
      intros Hb; inversion Hb; subst; [right|left]; auto.
Qed.

Lemma loop_backoff_bound t0 : forall init last w res w',
  max_retries c - 1 <= last ->
  for_attempts (attempt_body env c q t0) (init ++ [last]) w = (res, w') ->
  exists l,
    sleeps w' = (sleeps w ++ l)%list /\
    0 <= total l <= total (map (fun a => 2 ^ a) init) /\
    (calls w + List.length l < calls w')%nat.
Proof.
  induction init as [|a init IH]; intros last w res w' Hlast H; cbn [app] in H;
    rewrite loop_step in H.
  - destruct (attempt_body env c q t0 last w) as [x w1] eqn:B.
    pose proof (body_sends_once env c q t0 _ _ _ _ B) as (C1 & _ & _).
    destruct (body_sleeps _ _ _ _ _ B) as [Sl|(Early & _)]; [|lia].
    exists []. rewrite app_nil_r.
    assert (E : w' = w1).
    { destruct x as [e|[| |ans]]; inversion H; reflexivity. }
    subst w'. simpl. repeat split; [assumption|lia|lia|lia].
  - destruct (attempt_body env c q t0 a w) as [x w1] eqn:B.
    pose proof (body_sends_once env c q t0 _ _ _ _ B) as (C1 & _ & _).
    pose proof (total_pow_nonneg init) as Nn.
    pose proof (Z.pow_nonneg 2 a ltac:(lia)) as Pa.
    assert (Stop : w' = w1 -> x <> inr Continue ->
      exists l, sleeps w' = (sleeps w ++ l)%list /\
        0 <= total l <= total (map (fun a => 2 ^ a) (a :: init)) /\
        (calls w + List.length l < calls w')%nat).
    { intros -> NC. destruct (body_sleeps _ _ _ _ _ B) as [Sl|(_ & Cx & _)];
        [|contradiction].
      exists []. rewrite app_nil_r. simpl. repeat split; [assumption|lia|lia|lia]. }
    assert (Go : for_attempts (attempt_body env c q t0) (init ++ [last]) w1 = (res, w') ->
      exists l, sleeps w' = (sleeps w ++ l)%list /\
        0 <= total l <= total (map (fun a => 2 ^ a) (a :: init)) /\
        (calls w + List.length l < calls w')%nat).
    { intros L. destruct (IH last w1 res w' Hlast L) as (l2 & S2 & T2 & C2).
      destruct (body_sleeps _ _ _ _ _ B) as [Sl|(_ & _ & Sl)].
      - exists l2. rewrite S2, Sl. simpl. repeat split; lia.
      - exists (2 ^ a :: l2). rewrite S2, Sl, <- app_assoc. simpl.
        unfold total in *; simpl. repeat split; lia. }
    destruct x as [e|[| |ans]]; try (apply Go; assumption);
      inversion H; subst; apply Stop; try reflexivity; discriminate.
Qed.

End Runs.



(** X13.  With at least one attempt configured, a run of
    [generate_response] makes at least one and at most [max_retries]
    outbound calls; it sleeps fewer times than it calls, and the seconds it
    sleeps add up to at most [2 ** (max_retries - 1) - 1] (three seconds for
    the client [__init__] builds). *)
Theorem run_is_bounded (env : Env) (c : GroqClient) (q : string) (w : World) :
  1 <= max_retries c ->
  (calls w + 1 <= calls (world_after env c q w) <= calls w + Z.to_nat (max_retries c))%nat /\
  exists slept,
    sleeps (world_after env c q w) = (sleeps w ++ slept)%list /\
    0 <= total slept <= 2 ^ (max_retries c - 1) - 1 /\
    (calls w + List.length slept < calls (world_after env c q w))%nat.
Proof.
  intros Hmax.
  destruct (generate_response_sends env c q w) as (_ & m & Hm & Cm & _).
  unfold world_after in *. rewrite generate_response_eq in *.
  rewrite (py_range_last _ Hmax) in *.
  destruct (for_attempts _ _ _) as [res w'] eqn:L.
  apply loop_backoff_bound in L as (l & Sl & Tl & Cl); [|lia].
  rewrite sleeps_record, app_nil_r in Sl. rewrite calls_after_clock in Cl.
  replace (max_retries c - 1) with (Z.of_nat (Z.to_nat (max_retries c - 1))) in Tl by lia.
  rewrite total_pow_range in Tl.
  replace (Z.of_nat (Z.to_nat (max_retries c - 1))) with (max_retries c - 1) in Tl by lia.
  assert (E : forall (x : Res Answer * World), snd x = w' ->
    (calls w + 1 <= calls (snd x) <= calls w + Z.to_nat (max_retries c))%nat /\
    exists slept,
      sleeps (snd x) = (sleeps w ++ slept)%list /\
      0 <= total slept <= 2 ^ (max_retries c - 1) - 1 /\
      (calls w + List.length slept < calls (snd x))%nat).
  { intros x ->.
    assert (Cw : calls w' = (calls w + m)%nat).
    { destruct res as [e|[a|]]; exact Cm. }
    split; [lia|]. exists l. auto. }
  destruct res as [e|[a|]]; apply E; reflexivity.
Qed.

Lemma run_is_bounded_witness :
  (calls initial_world + 1
   <= calls (world_after (always RequestFailed) sample_client "hi" initial_world)
   <= calls initial_world + Z.to_nat (max_retries sample_client))%nat /\
  exists slept,
    sleeps (world_after (always RequestFailed) sample_client "hi" initial_world)
      = (sleeps initial_world ++ slept)%list /\
    0 <= total slept <= 2 ^ (max_retries sample_client - 1) - 1 /\
    (calls initial_world + List.length slept
     < calls (world_after (always RequestFailed) sample_client "hi" initial_world))%nat.
Proof.
  apply (run_is_bounded (always RequestFailed) sample_client "hi" initial_world).
  simpl. lia.
Defined.

(** X14.  Every request a run of [generate_response] sends goes to the
    chat-completions path of the client's base URL with the client's key as
    bearer token, carries the fixed system message followed by the question,
    unchanged, as the only user message, names the primary or the fallback
    model, and asks for no streaming; requests sent earlier are left in
    place. *)
Theorem requests_are_well_formed (env : Env) (c : GroqClient) (q : string) (w : World) :
  exists sent_now,
    posts (world_after env c q w) = (posts w ++ sent_now)%list /\
    Forall (well_formed c q) sent_now.
Proof.
  destruct (generate_response_sends env c q w) as (_ & m & _ & _ & P).
  exists (map (request_of c q) (firstn m (py_range (max_retries c)))).
  split; [exact P|].
  apply Forall_forall. intros req Hreq.
  apply in_map_iff in Hreq as (a & <- & _).
  unfold well_formed, request_of, make_request, make_payload, model_to_use; simpl.
  repeat split. destruct (a <? 2); auto.
Qed.

(** ** A 200 response that cannot be read *)

(** Whatever reading the body of a 200 response raises ends the run at
    once. *)
Lemma failed_read_is_terminal env c q w (k : nat) resp e :
  (calls w + k < calls (world_after env c q w))%nat ->
  upstream env (calls w + k) = Responded resp ->
  status_code resp = 200 ->
  completion_of resp = inl e ->
  result_of env c q w = inl e /\
  calls (world_after env c q w) = (calls w + k + 1)%nat.
Proof.
  unfold result_of, world_after. rewrite generate_response_eq.
  destruct (for_attempts _ _ _) as [res w'] eqn:L.
  intros Hk U S200 K.
  assert (Hk' : (calls (record EvTime w) + k < calls w')%nat).
  { rewrite calls_after_clock. destruct res as [e1|[a|]]; exact Hk. }
  destruct (loop_reaches _ _ _ _ k _ _ _ _ L Hk') as (w0 & C0 & L0).
  rewrite calls_after_clock in C0.
  destruct (skipn k (py_range (max_retries c))) as [|a rest].
  - inversion L0; subst. rewrite calls_after_clock in Hk'. lia.
  - rewrite loop_step in L0. rewrite <- C0 in U.
    rewrite (body_200 env c q _ a w0 resp U S200), K in L0.
    inversion L0; subst. simpl.
    unfold sent. rewrite calls_record; simpl.
    split; [reflexivity|lia].
Qed.

Lemma ask_question_after_raise env c q w e :
  result_of env c q w = inl e ->
  fst (ask_question env c q w) =
    inl (if is_HTTPException e then e else INTERNAL_ERROR) /\
  history_items (snd (ask_question env c q w)) = history_items w.
Proof.
  intros R. split.
  - unfold result_of in R. unfold ask_question, try_except, bind.
    destruct (generate_response env c q w) as [[e1|a] w1]; simpl in *; [|discriminate].
    inversion R; subst. destruct (is_HTTPException e); reflexivity.
  - rewrite ask_question_history. unfold result_of in R.
    destruct (generate_response env c q w) as [[e1|a] w1]; [reflexivity|discriminate].
Qed.

(** X15.  When an attempt (the one making call number [k] of the run) is
    answered with status 200 and a body that is not JSON, the decode error
    leaves [generate_response] at once, with no further call; [ask_question]
    turns it into the status-500 "internal error" [HTTPException] and
    leaves the history as it was. *)
Theorem undecodable_body_is_terminal
    (env : Env) (c : GroqClient) (q : string) (w : World)
    (k : nat) (resp : Response) :
  (calls w + k < calls (world_after env c q w))%nat ->
  upstream env (calls w + k) = Responded resp ->
  status_code resp = 200 ->
  decoded resp = None ->
  result_of env c q w = inl JSONDecodeError /\
  calls (world_after env c q w) = (calls w + k + 1)%nat /\
  fst (ask_question env c q w) = inl INTERNAL_ERROR /\
  history_items (snd (ask_question env c q w)) = history_items w.
Proof.
  intros Hk U S200 D.
  destruct (failed_read_is_terminal env c q w k resp JSONDecodeError Hk U S200)
    as (R & C).
  { unfold completion_of, json. rewrite D. reflexivity. }
  destruct (ask_question_after_raise env c q w _ R) as (A & H).
  auto.
Qed.

Lemma undecodable_body_is_terminal_witness :
  result_of (always (Responded {| status_code := 200; text := "<html>"; decoded := None |}))
    sample_client "hi" initial_world = inl JSONDecodeError /\
  calls (world_after
           (always (Responded {| status_code := 200; text := "<html>"; decoded := None |}))
           sample_client "hi" initial_world) = (calls initial_world + 0 + 1)%nat /\
  fst (ask_question
         (always (Responded {| status_code := 200; text := "<html>"; decoded := None |}))
         sample_client "hi" initial_world) = inl INTERNAL_ERROR /\
  history_items
    (snd (ask_question
            (always (Responded {| status_code := 200; text := "<html>"; decoded := None |}))
            sample_client "hi" initial_world)) = history_items initial_world.
Proof.
  apply (undecodable_body_is_terminal
           (always (Responded {| status_code := 200; text := "<html>"; decoded := None |}))
           sample_client "hi" initial_world 0
           {| status_code := 200; text := "<html>"; decoded := None |}).
  - vm_compute. lia.
  - reflexivity.
  - reflexivity.
  - reflexivity.
Defined.

(** ** What [ask_question] gives back *)

(** X16.  [ask_question] never lets anything but an [HTTPException] out;
    an [HTTPException] raised by [generate_response] passes through
    unchanged, status and detail included, and any other exception it
    raised becomes the status-500 "internal error". *)
Theorem ask_question_raises_http
    (env : Env) (c : GroqClient) (q : string) (w : World) :
  match fst (ask_question env c q w) with
  | inl e => is_HTTPException e = true
  | inr _ => True
  end /\
  match result_of env c q w with
  | inl e =>
      fst (ask_question env c q w) =
        inl (if is_HTTPException e then e else INTERNAL_ERROR)
  | inr _ => True
  end.
Proof.
  split.
  - unfold ask_question, try_except, bind.
    destruct (generate_response env c q w) as [[e1|[[response_text model_name] t]] w1];
      simpl.
    + destruct (is_HTTPException e1) eqn:K; simpl; [exact K|reflexivity].
    + unfold lift.
      destruct (str_field env response_text) as [e2|validated]; simpl; [|exact I].
      destruct (is_HTTPException e2) eqn:K; simpl; [exact K|reflexivity].
  - destruct (result_of env c q w) as [e|a] eqn:R; [|exact I].
    apply ask_question_after_raise. exact R.
Qed.

(** The 401 the upstream gave on the last attempt reaches the caller of
    [ask_question] as a 401. *)
Example upstream_status_passes_through :
  fst (ask_question (always (respond 401 error_body)) sample_client "hi" initial_world)
  = inl (HTTPException 401 "Groq API error: 401 - upstream failed").
Proof. vm_compute. reflexivity. Qed.

(** X17.  When [generate_response] returns an answer whose content the
    response model accepts as a string, [ask_question] returns that string
    with the model name and the elapsed time [generate_response] reported. *)
Theorem ask_question_returns_answer
    (env : Env) (c : GroqClient) (q : string) (w : World)
    (response_text : JSON) (model_name : string) (response_time : Q) (validated : string) :
  result_of env c q w = inr (response_text, model_name, response_time) ->
  str_field env response_text = inr validated ->
  fst (ask_question env c q w) =
    inr {| qr_response := validated;
           qr_model_used := model_name;
           qr_response_time := response_time |}.
Proof.
  unfold result_of, ask_question, try_except, bind.
  destruct (generate_response env c q w) as [[e1|a] w1]; simpl; [discriminate|].
  intros H V; inversion H; subst. unfold lift. simpl. rewrite V. reflexivity.
Qed.

Lemma ask_question_returns_answer_witness :
  fst (ask_question (always (respond 200 answer_body)) sample_client "hi" initial_world) =
    inr {| qr_response := "answer";
           qr_model_used := "llama3-70b-8192";
           qr_response_time := (steady_clock 1 - steady_clock 0)%Q |}.
Proof.
  apply (ask_question_returns_answer (always (respond 200 answer_body)) sample_client "hi"
           initial_world (JStr "answer") "llama3-70b-8192"
           (steady_clock 1 - steady_clock 0)%Q "answer").
  - reflexivity.
  - reflexivity.
Defined.

(** X18.  The record is stored before the response is built: when
    [generate_response] returns an answer whose content the response model
    rejects (a [null] content, say), [ask_question] raises the status-500
    "internal error", and yet the history has the record of that answer
    appended. *)
Theorem history_written_before_validation
    (env : Env) (c : GroqClient) (q : string) (w : World) (answer : Answer) :
  result_of env c q w = inr answer ->
  str_field env (fst (fst answer)) = inl ValidationError ->
  fst (ask_question env c q w) = inl INTERNAL_ERROR /\
  history_items (snd (ask_question env c q w)) =
    append_history (stored_item env q answer (world_after env c q w)) (history_items w).
Proof.
  intros R V. split.
  - unfold result_of in R. unfold ask_question, try_except, bind.
    destruct (generate_response env c q w) as [[e1|a] w1]; simpl in *; [discriminate|].
    inversion R; subst. destruct answer as [[response_text model_name] t]; simpl in *.
    unfold lift. rewrite V. reflexivity.
  - rewrite ask_question_history. unfold result_of, world_after in *.
    destruct (generate_response env c q w) as [[e1|a] w1]; simpl in *; [discriminate|].
    inversion R; subst. reflexivity.
Qed.

Lemma history_written_before_validation_witness :
  fst (ask_question (always (respond 200 null_content_body)) sample_client "hi" initial_world)
    = inl INTERNAL_ERROR /\
  history_items
    (snd (ask_question (always (respond 200 null_content_body)) sample_client "hi"
            initial_world)) =
    append_history
      (stored_item (always (respond 200 null_content_body)) "hi"
         (JNull, "llama3-70b-8192", (steady_clock 1 - steady_clock 0)%Q)
         (world_after (always (respond 200 null_content_body)) sample_client "hi"
            initial_world))
      (history_items initial_world).
Proof.
  apply (history_written_before_validation (always (respond 200 null_content_body))
           sample_client "hi" initial_world
           (JNull, "llama3-70b-8192", (steady_clock 1 - steady_clock 0)%Q)).
  - reflexivity.
  - reflexivity.
Defined.

(** ** Deleting and clearing *)

Lemma filter_keeps_all {A : Type} (f : A -> bool) : forall l,
  (forall x, In x l -> f x = true) -> filter f l = l.
Proof.
  induction l as [|x l IH]; intros H; simpl; [reflexivity|].
  rewrite (H x) by (now left). f_equal. apply IH. intros y Hy. apply H. now right.
Qed.


(** X19.  [delete_history_item] with an id no record has raises the
    status-404 [HTTPException] and leaves the world, the history included,
    exactly as it was. *)
Theorem delete_missing_item (item_id : string) (w : World) :
  (forall item, In item (history_items w) -> id item <> item_id) ->
  delete_history_item item_id w = (inl (HTTPException 404 "History item not found"), w).
Proof.
  intros H. unfold delete_history_item.
  rewrite filter_keeps_all.
  - rewrite Nat.eqb_refl. destruct w; reflexivity.
  - intros x Hx. apply negb_true_iff, String.eqb_neq. now apply H.
Qed.

Lemma delete_missing_item_witness :
  delete_history_item "no-such-id" two_records
  = (inl (HTTPException 404 "History item not found"), two_records).
Proof.
  apply (delete_missing_item "no-such-id" two_records).
  intros item [<-|[<-|[]]]; discriminate.
Defined.



Lemma listed_records_are_stored (items : list HistoryItem) (limit : Z) (r : HistoryItem) :
  In r (slice_to (sorted_desc items) limit) -> In r items.
Proof.
  intros H. apply slice_to_incl in H.
  eapply Permutation_in; [apply sorted_desc_perm|exact H].
Qed.

(** X21.  After [delete_history_item], whether it found the id or not, no
    listing of the history, with whatever limit, shows a record with that
    id. *)
Theorem deleted_item_is_not_listed (item_id : string) (limit : Z) (w : World) :
  exists listed,
    fst (get_history limit (snd (delete_history_item item_id w))) = inr listed /\
    Forall (fun r => id r <> item_id) listed.
Proof.
  eexists. split; [reflexivity|].
  apply Forall_forall. intros r Hr.
  apply listed_records_are_stored in Hr.
  assert (K : history_items (snd (delete_history_item item_id w)) =
              filter (fun x => negb (String.eqb (id x) item_id)) (history_items w)).
  { unfold delete_history_item. destruct (Nat.eqb _ _); reflexivity. }
  rewrite K in Hr. apply filter_In in Hr as (_ & Hr).
  now apply negb_true_iff, String.eqb_neq in Hr.
Qed.


(** ** More on listing *)

Lemma string_ltb_irrefl a : String.ltb a a = false.
Proof.
  unfold String.ltb.
  pose proof (String.compare_antisym a a) as H.
  destruct (String.compare a a); try reflexivity. discriminate H.
Qed.

Lemma slice_to_all {A : Type} (l : list A) (limit : Z) :
  Z.of_nat (List.length l) <= limit -> slice_to l limit = l.
Proof.
  intros H. unfold slice_to.
  destruct (Z.ltb_spec limit 0); [lia|].
  apply firstn_all2. lia.
Qed.

Lemma sorted_desc_length items : List.length (sorted_desc items) = List.length items.
Proof. apply Permutation_length, sorted_desc_perm. Qed.

(** X23.  With a limit that is not below the number of stored records,
    [get_history] returns all of them, each exactly once: the listing is a
    permutation of the log, sorted most recent first. *)
Theorem listing_with_room_is_complete (limit : Z) (w : World) :
  Z.of_nat (List.length (history_items w)) <= limit ->
  exists listed,
    fst (get_history limit w) = inr listed /\
    Permutation listed (history_items w) /\
    List.length listed = List.length (history_items w) /\
    StronglySorted newer_first listed.
Proof.
  intros H. exists (sorted_desc (history_items w)).
  unfold get_history; simpl.
  rewrite slice_to_all by (rewrite sorted_desc_length; exact H).
  repeat split.
  - apply sorted_desc_perm.
  - apply sorted_desc_length.
  - apply sorted_desc_sorted.
Qed.

Lemma listing_with_room_is_complete_witness :
  exists listed,
    fst (get_history 50 two_records) = inr listed /\
    Permutation listed (history_items two_records) /\
    List.length listed = List.length (history_items two_records) /\
    StronglySorted newer_first listed.
Proof.
  apply (listing_with_room_is_complete 50 two_records).
  simpl. lia.
Defined.

Lemma insert_desc_ties (stamp : string) x : forall l,
  filter (fun r => String.eqb (timestamp r) stamp) (insert_desc x l) =
  filter (fun r => String.eqb (timestamp r) stamp) (x :: l).
Proof.
  induction l as [|y l IH]; [reflexivity|].
  cbn [insert_desc].
  destruct (String.ltb (timestamp x) (timestamp y)) eqn:Lt; [|reflexivity].
  cbn [filter] in *. rewrite IH.
  destruct (String.eqb_spec (timestamp x) stamp) as [Ex|Nx]; [|reflexivity].
  destruct (String.eqb_spec (timestamp y) stamp) as [Ey|Ny]; [|reflexivity].
  rewrite Ex, Ey, string_ltb_irrefl in Lt. discriminate.
Qed.

Lemma sorted_desc_ties (stamp : string) : forall l,
  filter (fun r => String.eqb (timestamp r) stamp) (sorted_desc l) =
  filter (fun r => String.eqb (timestamp r) stamp) l.
Proof.
  induction l as [|x l IH]; [reflexivity|].
  cbn [sorted_desc fold_right]. fold (sorted_desc l).
  rewrite insert_desc_ties. cbn [filter]. now rewrite IH.
Qed.

(** X24.  The sort behind [get_history] is stable: in a listing that has
    room for the whole log, the records that share a timestamp stand in the
    order in which they were stored. *)
Theorem listing_keeps_order_of_ties (limit : Z) (w : World) (stamp : string) :
  Z.of_nat (List.length (history_items w)) <= limit ->
  exists listed,
    fst (get_history limit w) = inr listed /\
    filter (fun r => String.eqb (timestamp r) stamp) listed =
    filter (fun r => String.eqb (timestamp r) stamp) (history_items w).
Proof.
  intros H. exists (sorted_desc (history_items w)).
  unfold get_history; simpl.
  rewrite slice_to_all by (rewrite sorted_desc_length; exact H).
  split; [reflexivity|apply sorted_desc_ties].
Qed.

Lemma listing_keeps_order_of_ties_witness :
  exists listed,
    fst (get_history 50
           (mkWorld [item_with "a" "2024-01-01T10:00:00";
                     item_with "b" "2024-01-01T11:00:00";
                     item_with "c" "2024-01-01T10:00:00"] [])) = inr listed /\
    filter (fun r => String.eqb (timestamp r) "2024-01-01T10:00:00") listed =
    filter (fun r => String.eqb (timestamp r) "2024-01-01T10:00:00")
      (history_items
         (mkWorld [item_with "a" "2024-01-01T10:00:00";
                   item_with "b" "2024-01-01T11:00:00";
                   item_with "c" "2024-01-01T10:00:00"] [])).
Proof.
  apply (listing_keeps_order_of_ties 50
           (mkWorld [item_with "a" "2024-01-01T10:00:00";
                     item_with "b" "2024-01-01T11:00:00";
                     item_with "c" "2024-01-01T10:00:00"] [])
           "2024-01-01T10:00:00").
  simpl. lia.
Defined.

Example ties_listed_in_insertion_order :
  map id (slice_to (sorted_desc [item_with "a" "2024-01-01T10:00:00";
                                 item_with "b" "2024-01-01T11:00:00";
                                 item_with "c" "2024-01-01T10:00:00"]) 50)
  = ["b"; "a"; "c"].
Proof. reflexivity. Qed.

Lemma insert_desc_oldest x : forall l,
  Forall (fun y => String.ltb (timestamp x) (timestamp y) = true) l ->
  insert_desc x l = (l ++ [x])%list.
Proof.
  induction l as [|y l IH]; intros H; [reflexivity|].
  inversion H as [|? ? Hy Hl]; subst.
  cbn [insert_desc]. rewrite Hy. simpl. f_equal. now apply IH.
Qed.

Lemma sorted_desc_increasing : forall l, increasing l -> sorted_desc l = rev l.
Proof.
  induction l as [|x l IH]; intros H; [reflexivity|].
  destruct H as (Hx & Hl).
  cbn [sorted_desc fold_right]. fold (sorted_desc l).
  rewrite (IH Hl). simpl rev.
  apply insert_desc_oldest.
  apply Forall_forall. intros y Hy. apply in_rev in Hy.
  rewrite Forall_forall in Hx. now apply Hx.
Qed.

(** X25.  When every record was stored with a timestamp larger than those
    before it, [get_history] with a limit that is not negative lists the
    last [limit] records stored, the latest first: the log reversed and cut
    after [limit] entries. *)
Theorem listing_reverses_insertion (limit : Z) (w : World) :
  increasing (history_items w) ->
  0 <= limit ->
  fst (get_history limit w) = inr (firstn (Z.to_nat limit) (rev (history_items w))).
Proof.
  intros Hinc Hlimit. unfold get_history, slice_to; simpl.
  destruct (Z.ltb_spec limit 0); [lia|].
  now rewrite sorted_desc_increasing.
Qed.

Lemma listing_reverses_insertion_witness :
  fst (get_history 1 two_records)
  = inr (firstn (Z.to_nat 1) (rev (history_items two_records))).
Proof.
  apply (listing_reverses_insertion 1 two_records).
  - simpl. repeat split; repeat constructor.
  - lia.
Defined.

(** ** The raise after the loop *)

Section Exhaustion.

Variable env : Env.
Variable c : GroqClient.
Variable q : string.
Variable start_time : Q.

Local Abbreviation body := (attempt_body env c q start_time).
Local Abbreviation loop := (for_attempts body).

(** An attempt after which the loop goes on met an outcome that is not a
    200 response. *)
Lemma body_goes_on_retryable attempt w flow w' :
  body attempt w = (inr flow, w') ->
  (forall a, flow <> Return a) ->
  retryable (upstream env (calls w)).
Proof.
  intros B NR.
  destruct (upstream env (calls w)) as [resp| |] eqn:U; simpl; try exact I.
  intros S200.
  rewrite (body_200 env c q start_time attempt w resp U S200) in B.
  destruct (completion_of resp) as [e|ai]; [discriminate|].
  inversion B; subst. eapply NR; reflexivity.
Qed.

(** A loop that runs off its end went on after every attempt. *)
Lemma loop_exhausted_retryable : forall attempts w w',
  loop attempts w = (inr None, w') ->
  forall j, (j < List.length attempts)%nat -> retryable (upstream env (calls w + j)).
Proof.
  induction attempts as [|a rest IH]; intros w w' L j Hj; [simpl in Hj; lia|].
  rewrite loop_step in L.
  destruct (body a w) as [[e|flow] w1] eqn:B; [discriminate|].
  assert (NR : forall ans, flow <> Return ans).
  { intros ans ->. discriminate. }
  pose proof (body_sends_once env c q start_time _ _ _ _ B) as (C1 & _ & _).
  assert (L1 : loop rest w1 = (inr None, w')).
  { destruct flow as [| |ans]; [exact L|exact L|exfalso; eapply NR; reflexivity]. }
  destruct j as [|j].
  - rewrite Nat.add_0_r. eapply body_goes_on_retryable; eassumption.
  - replace (calls w + S j)%nat with (calls w1 + j)%nat by lia.
    eapply IH; [exact L1|simpl in Hj; lia].
Qed.

(** The loop runs off its end exactly when every early attempt met an
    outcome the loop retries and the final attempt met a 429. *)
Lemma loop_exhausted_by_inputs init last w :
  Forall (fun a => a < max_retries c - 1) init ->
  max_retries c - 1 <= last ->
  (fst (loop (init ++ [last]) w) = inr None <->
   (forall j, (j < List.length init)%nat -> retryable (upstream env (calls w + j))) /\
   exists resp,
     upstream env (calls w + List.length init) = Responded resp /\
     status_code resp = 429).
Proof.
  intros Hinit Hlast. split.
  - intros R.
    destruct (loop (init ++ [last]) w) as [res w'] eqn:L. simpl in R. subst res.
    split.
    + intros j Hj. eapply loop_exhausted_retryable; [exact L|].
      rewrite length_app; simpl. lia.
    + eapply (loop_exhausted_iff env c q start_time init last w); eauto.
  - intros (Hup & resp & U & S429).
    destruct (loop_retries env c q start_time init [last] w Hinit Hup)
      as (w1 & L & C1 & _).
    rewrite L, loop_step. rewrite <- C1 in U.
    rewrite (body_429 env c q start_time last w1 resp U S429).
    destruct (Z.ltb_spec last (max_retries c - 1)); [lia|reflexivity].
Qed.

End Exhaustion.

(** C10.  With at least one attempt configured, [generate_response] ends in
    the final "temporarily unavailable" [raise] after the loop if and only
    if the calls of all attempts before the last met outcomes the loop
    retries (a response with a status other than 200, a timeout or a
    network failure) and the call of the final attempt was answered with a
    429; all [max_retries] calls have then been made.  So the raise is
    reached on such inputs, and after any other outcome of the final attempt
    (200 with or without choices, another status, a timeout, a network
    failure) the run has returned or raised something else. *)
Theorem unavailable_iff_final_429
    (env : Env) (c : GroqClient) (q : string) (w : World) :
  1 <= max_retries c ->
  (result_of env c q w = inl UNAVAILABLE <->
   (forall j, (j < Z.to_nat (max_retries c) - 1)%nat ->
      retryable (upstream env (calls w + j))) /\
   exists resp,
     upstream env (calls w + (Z.to_nat (max_retries c) - 1)) = Responded resp /\
     status_code resp = 429) /\
  (result_of env c q w = inl UNAVAILABLE ->
   calls (world_after env c q w) = (calls w + Z.to_nat (max_retries c))%nat).
Proof.
  intros Hmax.
  pose proof (loop_exhausted_by_inputs env c q (time_time env (count is_time w))
                (py_range (max_retries c - 1)) (max_retries c - 1) (record EvTime w)
                (range_is_early _) (Z.le_refl _)) as Inputs.
  rewrite py_range_length, calls_after_clock in Inputs.
  replace (Z.to_nat (max_retries c - 1))
    with (Z.to_nat (max_retries c) - 1)%nat in Inputs by lia.
  unfold result_of, world_after. rewrite generate_response_eq.
  rewrite (py_range_last _ Hmax) in *.
  destruct (for_attempts _ _ _) as [res w'] eqn:L.
  pose proof L as L'.
  apply loop_exhausted_iff in L'; [|apply range_is_early|lia].
  rewrite py_range_length, calls_after_clock in L'.
  simpl fst in Inputs.
  destruct res as [e|[a|]]; simpl.
  - assert (NU : e <> UNAVAILABLE) by (eapply loop_never_unavailable; eauto).
    split; [split|]; try (intros H; inversion H; subst; contradiction).
    intros H. apply Inputs in H. discriminate.
  - split; [split|]; try discriminate.
    intros H. apply Inputs in H. discriminate.
  - split; [split|].
    + intros _. apply Inputs. reflexivity.
    + reflexivity.
    + intros _. destruct L' as (L' & _). destruct (L' eq_refl) as (Cw & _). lia.
Qed.

(** Three 429 answers in a row: the raise after the loop is reached, after
    three calls. *)
Lemma unavailable_iff_final_429_witness :
  result_of (always (respond 429 error_body)) sample_client "hi" initial_world
    = inl UNAVAILABLE /\
  calls (world_after (always (respond 429 error_body)) sample_client "hi" initial_world)
    = (calls initial_world + Z.to_nat (max_retries sample_client))%nat.
Proof.
  assert (Hmax : 1 <= max_retries sample_client) by (simpl; lia).
  destruct (unavailable_iff_final_429 (always (respond 429 error_body)) sample_client "hi"
              initial_world Hmax) as (Reached & Calls).
  assert (R : result_of (always (respond 429 error_body)) sample_client "hi" initial_world
              = inl UNAVAILABLE).
  { apply Reached. split.
    - intros j Hj. simpl. lia.
    - eexists. split; reflexivity. }
  split; [exact R|exact (Calls R)].
Defined.

(** A final attempt that times out instead: the raise after the loop is
    not reached. *)
Example final_timeout_is_not_unavailable :
  result_of (first_then 2 (respond 429 error_body) TimedOut) sample_client "hi" initial_world
  = inl (HTTPException 504 "Ule Msee is taking too long to respond. Please try again.").
Proof. vm_compute. reflexivity. Qed.
